(** * PiranhaGPTChat: conversation management for rule inference

    A shallow embedding of [experimental/rule_inference/piranha_chat.py]:
    the example loader [_get_examples], the prompt construction in
    [__attrs_post_init__], the message log and the completion client with
    its retry loop.

    Python objects are mutable and calls can raise, so the methods of the
    class live in a small state-and-exception monad over the object's
    fields and an observable world (provider calls, log lines, prints and
    sleeps). The completion provider and the file system are external
    collaborators: they are parameters of the development. *)

From Stdlib Require Import Ascii QArith.
From stdpp Require Import base list strings gmap.

Set Default Proof Using "Type*".

(** ** Outcomes of a Python call *)

Module openai.
(** The classes of [openai.error] (openai 0.x): every class derives
    directly from [OpenAIError], so an [except] clause naming three of
    them catches exactly these three. [Foreign] stands for any exception
    that is not an [openai.error] class. *)
Inductive error_class :=
| RateLimitError | Timeout | APIError
| TryAgain | APIConnectionError | InvalidRequestError
| AuthenticationError | PermissionError | ServiceUnavailableError
| InvalidAPIType | SignatureVerificationError
| Foreign (name : string).

Record error := Error { cls : error_class; msg : string }.
End openai.

Inductive exn :=
| KeyError (key : string)
| IndexError
| ValueError (what : string)
| ReadError (path : string)
| ProviderError (e : openai.error)
| NotModelled (what : string).

(** [OutOfFuel] is not a Python outcome: it marks a run of the model whose
    loop budget was too small to reach the end of [while True]. *)
Inductive result (A : Type) :=
| Ok (a : A)
| Raise (e : exn)
| OutOfFuel.
Arguments Ok {A} a.
Arguments Raise {A} e.
Arguments OutOfFuel {A}.

(** ** Python string helpers *)

Definition nl : string := String "010"%char "".

Definition startswith (s pre : string) : bool := String.prefix pre s.

(** [s.endswith(suf)]: some tail of [s] is [suf]. *)
Fixpoint endswith (s suf : string) : bool :=
  String.eqb s suf ||
  match s with
  | EmptyString => false
  | String _ s' => endswith s' suf
  end.

(** [s.split(nl)]: never empty, the empty string splits to one empty line. *)
Fixpoint split_nl (s : string) : list string :=
  match s with
  | EmptyString => [""]
  | String c s' =>
      if Ascii.eqb c "010"%char then "" :: split_nl s'
      else match split_nl s' with
           | h :: t => String c h :: t
           | [] => [String c ""]
           end
  end.

(** [nl.join(lines)] *)
Definition join_nl (lines : list string) : string := String.concat nl lines.

(** [os.path.join(a, b)] on POSIX, for two components. *)
Definition path_join (a b : string) : string :=
  if startswith b "/" then b
  else if String.eqb a "" || endswith a "/" then a +:+ b
  else a +:+ "/" +:+ b.

(** ** [str.format] with keyword arguments

    One pass over the template, as the interpreter does it: literal text
    is copied, doubled braces stand for one brace, and [{name}] is looked
    up among the keyword arguments, a missing name raising [KeyError] at
    the point where it is met. The value is inserted as it is and is not
    scanned again. An empty or numbered field asks for a positional
    argument, and there is none. Conversions ([!r]), format
    specifications ([:...]), attribute and index access and nested
    fields do not occur in [input_template]; the model stops on them
    with [NotModelled]. *)

Definition field_special (c : ascii) : bool :=
  Ascii.eqb c "!" || Ascii.eqb c ":" || Ascii.eqb c "." ||
  Ascii.eqb c "[" || Ascii.eqb c "{".

(** An empty or all-digit field name refers to a positional argument;
    [format] is called with none. *)
Fixpoint positional (name : string) : bool :=
  match name with
  | EmptyString => true
  | String c name' =>
      let n := nat_of_ascii c in
      (48 <=? n)%nat && (n <=? 57)%nat && positional name'
  end.

Fixpoint format_go (kw : string → option string) (t : string)
    (field : option string) (out : string) : result string :=
  match field with
  | None =>
      match t with
      | EmptyString => Ok out
      | String c t' =>
          if Ascii.eqb c "{" then
            match t' with
            | EmptyString =>
                Raise (ValueError "Single '{' encountered in format string")
            | String c' t'' =>
                if Ascii.eqb c' "{" then format_go kw t'' None (out +:+ "{")
                else format_go kw t' (Some "") out
            end
          else if Ascii.eqb c "}" then
            match t' with
            | EmptyString =>
                Raise (ValueError "Single '}' encountered in format string")
            | String c' t'' =>
                if Ascii.eqb c' "}" then format_go kw t'' None (out +:+ "}")
                else Raise (ValueError "Single '}' encountered in format string")
            end
          else format_go kw t' None (out +:+ String c "")
      end
  | Some name =>
      match t with
      | EmptyString => Raise (ValueError "expected '}' before end of string")
      | String c t' =>
          if Ascii.eqb c "}" then
            if positional name then Raise IndexError
            else match kw name with
                 | Some v => format_go kw t' None (out +:+ v)
                 | None => Raise (KeyError name)
                 end
          else if field_special c then Raise (NotModelled "format field")
          else format_go kw t' (Some (name +:+ String c "")) out
      end
  end.

Definition format (t : string) (kwargs : gmap string string) : result string :=
  format_go (λ k, kwargs !! k) t None "".

(** ** The file system seen by [os.walk] and [Path.read_text] *)

(** A directory lists its entries in [scandir] order. Symbolic links and
    unreadable directories are left out of the model. *)
Unset Elimination Schemes.
Inductive node :=
| File
| Dir (entries : list (string * node)).
Set Elimination Schemes.

Definition is_dir (n : node) : bool :=
  match n with Dir _ => true | File => false end.

Definition dirnames (entries : list (string * node)) : list string :=
  fst <$> List.filter (λ e, is_dir (snd e)) entries.

Definition filenames (entries : list (string * node)) : list string :=
  fst <$> List.filter (λ e, negb (is_dir (snd e))) entries.

(** [os.walk(top)], top-down: the triple of [top] first, then the walk of
    each sub-directory in the order of [dirs]. A [top] that is not a
    directory yields nothing ([scandir] fails and the error is ignored). *)
Fixpoint walk (top : string) (n : node) : list (string * list string * list string) :=
  match n with
  | File => []
  | Dir entries =>
      (top, dirnames entries, filenames entries) ::
      (fix subdirs (es : list (string * node)) :=
         match es with
         | [] => []
         | (name, child) :: es' => walk (path_join top name) child ++ subdirs es'
         end) entries
  end.

(** ** Messages, requests and the observable world *)

Record message := Message { role : string; content : string }.

Record request := Request {
  req_model : string;
  req_messages : list message;
  req_temperature : Q;
  req_n : Z }.

Inductive provider_result :=
| Response (choices : list string)
| Fails (e : openai.error).

Inductive event :=
| LogDebug (line : string)
| LogError (e : exn)
| Print (text : string)
| Sleep (seconds : Z)
| Create (req : request).

(** The attributes of the class ([attr.ib] fields). *)
Record PiranhaGPTChat := Chat {
  holes : gmap string string;
  messages : list message;
  temperature : Q;
  model : string }.

(** The object a method runs on, the number of provider calls made so
    far and everything observable that has happened, oldest first. *)
Record state := State {
  self : PiranhaGPTChat;
  calls : nat;
  trace : list event }.

(** ** The monad of methods *)

Definition M (A : Type) : Type := state → result A * state.

Definition ret {A} (a : A) : M A := λ s, (Ok a, s).

Definition bind {A B} (m : M A) (k : A → M B) : M B := λ s,
  match m s with
  | (Ok a, s') => k a s'
  | (Raise e, s') => (Raise e, s')
  | (OutOfFuel, s') => (OutOfFuel, s')
  end.

Definition raise {A} (e : exn) : M A := λ s, (Raise e, s).

Definition out_of_fuel {A} : M A := λ s, (OutOfFuel, s).

(** A pure computation that may raise. *)
Definition lift {A} (r : result A) : M A := λ s, (r, s).

Definition gets {A} (f : PiranhaGPTChat → A) : M A := λ s, (Ok (f (self s)), s).

Definition emit (ev : event) : M unit := λ s,
  (Ok tt, State (self s) (calls s) (trace s ++ [ev])).

(** [try: body except (classes) as e: handler e]; what the body did
    before it raised stays done. *)
Definition try_except {A} (body : M A) (catches : exn → bool)
    (handler : exn → M A) : M A := λ s,
  match body s with
  | (Raise e, s') => if catches e then handler e s' else (Raise e, s')
  | other => other
  end.

Declare Scope chat_scope.
Delimit Scope chat_scope with chat.
Notation "'let!' x ':=' m 'in' k" := (bind m (λ x, k))
  (at level 10, x name, m at level 100, k at level 200) : chat_scope.
Notation "m '>>>' k" := (bind m (λ _, k))
  (at level 90, right associativity) : chat_scope.
Open Scope chat_scope.

(** ** The class *)

(** [input_template], a class attribute. *)
Definition input_template : string := "
========================= Task =========================

=== Source code === 

{source_code}

=== Tree-sitter representation (source code) ===

{source_tree}

=== Tree-sitter representation (target code) ===

{target_tree}

=== Diff === 

{diff}

=== Additional requirements === 

{hints}
========================= Please improve my rule =========================

    ".

(** The classes named by the [except] clause of [get_completion]. *)
Definition caught (e : exn) : bool :=
  match e with
  | ProviderError e =>
      match openai.cls e with
      | openai.RateLimitError | openai.Timeout | openai.APIError => true
      | _ => false
      end
  | _ => false
  end.
Arguments caught : simpl never.

(** [[choices[i].message.content for i in range(len(choices))]] *)
Definition contents_of (choices : list string) : list string :=
  omap (λ i, choices !! i) (seq 0 (length choices)).

(** The object after [self.messages.append(m)]. *)
Definition with_message (o : PiranhaGPTChat) (m : message) : PiranhaGPTChat :=
  Chat (holes o) (messages o ++ [m]) (temperature o) (model o).

Definition append_message (m : message) : M unit := λ s,
  (Ok tt, State (with_message (self s) m) (calls s) (trace s)).

(** [self.messages[-1]] *)
Definition last_message : M message := λ s,
  match last (messages (self s)) with
  | Some m => (Ok m, s)
  | None => (Raise IndexError, s)
  end.

(** [completions[0]] *)
Definition first_of {A} (l : list A) : M A :=
  match l with
  | x :: _ => ret x
  | [] => raise IndexError
  end.

Section PiranhaGPTChat.

(** [explanation], a class attribute: a fixed text of some 180 lines
    that the class only ever concatenates. *)
Variable explanation : string.

(** The file system: the tree [os.walk] finds at a path, and the text
    [Path(p).read_text()] gives for a path, [None] when the read fails
    (the file cannot be opened or decoded). *)
Variable tree_at : string → node.
Variable read_text : string → option string.

(** The completion provider: its answer to the [k]-th call ever made
    (counting from 0), given the request. *)
Variable provider : nat → request → provider_result.

(** *** [_get_examples] *)

(** The inner loop, [for file in files], with [task_examples] as the
    accumulator. *)
Fixpoint for_files (root : string) (files : list string)
    (task_examples : string) : result string :=
  match files with
  | [] => Ok task_examples
  | file :: files' =>
      if endswith file "rules.toml" then
        let file_name := path_join root file in
        match read_text file_name with
        | Some file_contents =>
            let file_contents :=
              join_nl (List.filter (λ line, negb (startswith line "#"))
                                   (split_nl file_contents)) in
            let task_examples :=
              task_examples +:+
              ("<file_name_start> " +:+ file_name +:+ " <file_name_end>" +:+ nl) in
            let task_examples :=
              task_examples +:+ ("```toml " +:+ file_contents +:+ "```" +:+ nl) in
            for_files root files' task_examples
        | None => Raise (ReadError file_name)
        end
      else for_files root files' task_examples
  end.

(** The outer loop, [for root, dirs, files in os.walk(...)]. *)
Fixpoint for_walk (triples : list (string * list string * list string))
    (task_examples : string) : result string :=
  match triples with
  | [] => Ok task_examples
  | (root, _, files) :: triples' =>
      match for_files root files task_examples with
      | Ok task_examples => for_walk triples' task_examples
      | other => other
      end
  end.

Definition _get_examples (path_to_examples_rules : string) : result string :=
  for_walk (walk path_to_examples_rules (tree_at path_to_examples_rules)) "".

(** *** Construction *)

Definition __attrs_post_init__ : M unit :=
  let! examples := lift (_get_examples "../../src/cleanup_rules/java") in
  let! kwargs := gets holes in
  let! task := lift (format input_template kwargs) in
  let formatted := explanation +:+ nl +:+ examples +:+ nl +:+ task in
  append_message (Message "user" formatted).

(** The validators of [temperature]: [ge(0)] then [le(1)]. The text of
    the error is given up to the rejected value, which attrs prints
    after it. *)
Definition validate_temperature : M unit :=
  let! t := gets temperature in
  if negb (Qle_bool 0 t) then raise (ValueError "'temperature' must be >= 0")
  else if negb (Qle_bool t 1) then raise (ValueError "'temperature' must be <= 1")
  else ret tt.

(** The validator of [model]: [in_([...])]. Here too the text stops
    before the rejected value. *)
Definition validate_model : M unit :=
  let! m := gets model in
  if bool_decide (m ∈ ["gpt-4"; "gpt-4-32k"; "gpt-3.5-turbo-16k"]) then ret tt
  else raise (ValueError "'model' must be in ['gpt-4', 'gpt-4-32k', 'gpt-3.5-turbo-16k']").

(** The [__init__] that attrs generates: the fields are assigned, the
    validators run in field order, then [__attrs_post_init__]. The list
    given for [messages] is the caller's own list object; its default
    is a fresh empty list. *)
Definition __init__ (holes : gmap string string) (messages : list message)
    (temperature : Q) (model : string) : M unit :=
  (λ s, (Ok tt, State (Chat holes messages temperature model) (calls s) (trace s))) >>>
  validate_temperature >>>
  validate_model >>>
  __attrs_post_init__.

(** *** The message log *)

Definition append_system_message (system_message : string) : M unit :=
  append_message (Message "assistant" system_message).

Definition append_user_followup (followup_message : string) : M unit :=
  append_message (Message "user" followup_message).

(** *** The completion client *)

(** [openai.ChatCompletion.create(...)] *)
Definition ChatCompletion_create (n : Z) : M (list string) := λ s,
  let o := self s in
  let req := Request (model o) (messages o) (temperature o) n in
  let s' := State o (S (calls s)) (trace s ++ [Create req]) in
  match provider (calls s) req with
  | Response choices => (Ok choices, s')
  | Fails e => (Raise (ProviderError e), s')
  end.

(** One turn of [while True]: [Some] is a [return], [None] falls off
    the end of the [except] block and loops. *)
Definition attempt (n_samples : Z) : M (option (list string)) :=
  try_except
    (emit (LogDebug "Attempting to get completion from GPT.") >>>
     let! latest := last_message in
     emit (Print (content latest +:+ nl)) >>>
     let! choices := ChatCompletion_create n_samples in
     ret (Some (contents_of choices)))
    caught
    (λ e,
       emit (LogError e) >>>
       let sleep_time := 10%Z in
       emit (Print "Rate limit reached. Sleeping for 10s.") >>>
       emit (Sleep sleep_time) >>>
       ret None).

Fixpoint get_completion (fuel : nat) (n_samples : Z) : M (list string) :=
  match fuel with
  | O => out_of_fuel
  | S fuel' =>
      let! r := attempt n_samples in
      match r with
      | Some completions => ret completions
      | None => get_completion fuel' n_samples
      end
  end.

Definition get_model_response (fuel : nat) : M string :=
  let! latest_message := last_message in
  if String.eqb (role latest_message) "assistant" then
    emit (Print ("System: " +:+ content latest_message +:+ nl)) >>>
    ret (content latest_message)
  else
    let! completions := get_completion fuel 1 in
    let! content := first_of completions in
    append_system_message content >>>
    ret content.

(** *** What a run adds to the world *)

Definition request_of (o : PiranhaGPTChat) (n_samples : Z) : request :=
  Request (model o) (messages o) (temperature o) n_samples.

(** The events of one request, up to the provider call. *)
Definition attempt_events (o : PiranhaGPTChat) (latest : message)
    (n_samples : Z) : list event :=
  [LogDebug "Attempting to get completion from GPT.";
   Print (content latest +:+ nl);
   Create (request_of o n_samples)].

(** The events of the [except] block. *)
Definition failure_events (e : openai.error) : list event :=
  [LogError (ProviderError e);
   Print "Rate limit reached. Sleeping for 10s.";
   Sleep 10].

(** The events of a run of failed requests, one per error. *)
Definition retry_events (o : PiranhaGPTChat) (latest : message)
    (n_samples : Z) (errs : list openai.error) : list event :=
  errs ≫= λ e, attempt_events o latest n_samples ++ failure_events e.

Definition sleeps (evs : list event) : list Z :=
  omap (λ ev, match ev with Sleep d => Some d | _ => None end) evs.

Definition logged_errors (evs : list event) : list exn :=
  omap (λ ev, match ev with LogError e => Some e | _ => None end) evs.

Definition requests (evs : list event) : list request :=
  omap (λ ev, match ev with Create r => Some r | _ => None end) evs.

(** *** The operations a caller has on a constructed object *)

Inductive operation :=
| Append_system_message (system_message : string)
| Append_user_followup (followup_message : string)
| Get_model_response (fuel : nat).

(** The state an operation leaves, whether it returned or raised. *)
Definition after (op : operation) (s : state) : state :=
  match op with
  | Append_system_message text => snd (append_system_message text s)
  | Append_user_followup text => snd (append_user_followup text s)
  | Get_model_response fuel => snd (get_model_response fuel s)
  end.

Definition after_all (ops : list operation) (s : state) : state :=
  foldl (λ s op, after op s) s ops.

(** The message an operation is meant to append, when it names one. *)
Definition appended_by (op : operation) : option message :=
  match op with
  | Append_system_message text => Some (Message "assistant" text)
  | Append_user_followup text => Some (Message "user" text)
  | Get_model_response _ => None
  end.

(** *** The example corpus, as the specification words it *)

Definition remove_comment_lines (text : string) : string :=
  join_nl (List.filter (λ line, negb (startswith line "#")) (split_nl text)).

(** One block: the path in its header tag, then the content. *)
Definition example_block (file_name text : string) : string :=
  "<file_name_start> " +:+ file_name +:+ " <file_name_end>" +:+ nl +:+
  "```toml " +:+ remove_comment_lines text +:+ "```" +:+ nl.

(** The files of one directory of the traversal: name and full path. *)
Definition files_of (triple : string * list string * list string) : list (string * string) :=
  let '(root, _, files) := triple in
  (λ file, (file, path_join root file)) <$> files.

(** The files met by the traversal, in its order. *)
Definition files_in_traversal_order (top : string) (n : node) : list (string * string) :=
  walk top n ≫= files_of.

(** The full paths of those whose name ends with [rules.toml]. *)
Definition matching (files : list (string * string)) : list string :=
  snd <$> List.filter (λ f, endswith (fst f) "rules.toml") files.

Definition rule_files (top : string) (n : node) : list string :=
  matching (files_in_traversal_order top n).

Definition blocks (text_of : string → string) (paths : list string) : list string :=
  (λ p, example_block p (text_of p)) <$> paths.

Definition examples_text (top : string) (n : node) (text_of : string → string) : string :=
  String.concat "" (blocks text_of (rule_files top n)).

(** *** The task template, filled in *)

Definition required_holes : list string :=
  ["source_code"; "source_tree"; "target_tree"; "diff"; "hints"].

Definition task_head : string := "
========================= Task =========================

=== Source code === 

".

Definition task_source_tree : string := "

=== Tree-sitter representation (source code) ===

".

Definition task_target_tree : string := "

=== Tree-sitter representation (target code) ===

".

Definition task_diff : string := "

=== Diff === 

".

Definition task_hints : string := "

=== Additional requirements === 

".

Definition task_tail : string := "
========================= Please improve my rule =========================

    ".

(** [input_template] with each placeholder replaced by a value. *)
Definition filled_template (source_code source_tree target_tree diff hints : string) : string :=
  task_head +:+ source_code +:+ task_source_tree +:+ source_tree +:+
  task_target_tree +:+ target_tree +:+ task_diff +:+ diff +:+
  task_hints +:+ hints +:+ task_tail.

(** The first required key that [holes] lacks. *)
Definition first_missing (holes : gmap string string) : option string :=
  List.find (λ k, bool_decide (holes !! k = None)) required_holes.

(** The error classes of construction: a rejected field or a missing
    hole is a configuration error, a failed read is not. *)
Definition configuration_error (e : exn) : bool :=
  match e with
  | ValueError _ | KeyError _ => true
  | _ => false
  end.

(** The specification on explicit sample counts, read on
    [get_completion]: a request for more than one sample that the
    provider answers returns all the samples, in the provider's order,
    and appends the first of them to the conversation. *)
Definition returns_samples_and_appends_first : Prop :=
  ∀ (fuel : nat) (n_samples : Z) (s : state) (latest : message)
    (choices : list string),
    (1 < n_samples)%Z →
    0 < fuel →
    last (messages (self s)) = Some latest →
    provider (calls s) (request_of (self s) n_samples) = Response choices →
    ∃ s' sample,
      get_completion fuel n_samples s = (Ok choices, s')
      ∧ head choices = Some sample
      ∧ messages (self s') = messages (self s) ++ [Message "assistant" sample].

(** The transient failure categories: rate limit exceeded, request
    timeout, generic provider-side error. *)
Definition transient (e : openai.error) : Prop :=
  openai.cls e = openai.RateLimitError ∨
  openai.cls e = openai.Timeout ∨
  openai.cls e = openai.APIError.

(** The provider fails with [errs], one after the other, from the next
    call on, each error a transient one. *)
Definition fails_transiently (s : state) (n_samples : Z)
    (errs : list openai.error) : Prop :=
  ∀ i e, errs !! i = Some e →
    provider (calls s + i) (request_of (self s) n_samples) = Fails e ∧ transient e.

(** Text with no brace in it, and the characters of a plain field name. *)
Fixpoint brace_free (s : string) : bool :=
  match s with
  | EmptyString => true
  | String c s' =>
      negb (Ascii.eqb c "{") && negb (Ascii.eqb c "}") && brace_free s'
  end.

Fixpoint plain_name (s : string) : bool :=
  match s with
  | EmptyString => true
  | String c s' =>
      negb (Ascii.eqb c "}") && negb (field_special c) && plain_name s'
  end.

(** Between two states, every request sent asked for [n_samples]. *)
Definition asks_for (n_samples : Z) (s s' : state) : Prop :=
  ∃ evs, trace s' = trace s ++ evs
         ∧ Forall (λ r, req_n r = n_samples) (requests evs).

(** *** A worked session *)

(** A provider that is rate limited, then times out, then answers with
    two samples; and one that rejects the credentials. *)
Definition flaky_provider (k : nat) (req : request) : provider_result :=
  match k with
  | 0 => Fails (openai.Error openai.RateLimitError "slow down")
  | 1 => Fails (openai.Error openai.Timeout "timed out")
  | _ => Response ["first"; "second"]
  end.

Definition rejecting_provider (k : nat) (req : request) : provider_result :=
  Fails (openai.Error openai.AuthenticationError "bad key").

(** The directory of the example: [a/rules.toml] holds a comment line and
    a line of code, [b/notes.txt] is not a rule file. *)
Definition demo_tree (path : string) : node :=
  Dir [("a", Dir [("rules.toml", File)]); ("b", Dir [("notes.txt", File)])].

Definition demo_text (path : string) : string :=
  if String.eqb path "../../src/cleanup_rules/java/a/rules.toml"
  then "# a comment" +:+ nl +:+ "[[rules]]"
  else "never read".

Definition demo_read_text (path : string) : option string :=
  if String.eqb path "../../src/cleanup_rules/java/a/rules.toml"
  then Some (demo_text path)
  else None.

Definition demo_holes : gmap string string :=
  {[ "source_code" := "class A {}";
     "source_tree" := "(program)";
     "target_tree" := "(program (class))";
     "diff" := "+ class";
     "hints" := "none" ]}.

Definition demo_asking : state :=
  State (Chat demo_holes [Message "user" "hi"] (3 # 10) "gpt-4") 0 [].

Definition demo_answered : state :=
  State (Chat demo_holes [Message "user" "hi"; Message "assistant" "hello"]
              (3 # 10) "gpt-4") 0 [].

Definition demo_asking_later : state :=
  State (Chat demo_holes [Message "user" "hi"] (3 # 10) "gpt-4") 2 [].

Definition demo_holes_without_diff : gmap string string :=
  {[ "source_code" := "class A {}";
     "source_tree" := "(program)";
     "target_tree" := "(program (class))";
     "hints" := "none" ]}.

(** The world before the object exists; its [self] is overwritten by
    [__init__]. *)
Definition demo_world : state := State (Chat ∅ [] 0 "") 0 [].

Definition demo_examples_root : string := "../../src/cleanup_rules/java".

Definition demo_operations : list operation :=
  [Append_user_followup "shorter, please";
   Get_model_response 3;
   Append_system_message "noted"].

Definition demo_errors : list openai.error :=
  [openai.Error openai.RateLimitError "slow down";
   openai.Error openai.Timeout "timed out"].

(** *** Reading the examples, whatever the files *)

(** The first path of a list that cannot be read. *)
Definition first_unreadable (paths : list string) : option string :=
  List.find (λ p, bool_decide (read_text p = None)) paths.

(** The text of a file, empty when it cannot be read. *)
Definition text_or_empty (p : string) : string := default "" (read_text p).

(** The lines the comprehension of [_get_examples] keeps. *)
Definition kept_lines (text : string) : list string :=
  List.filter (λ line, negb (startswith line "#")) (split_nl text).

(** *** More of the worked session *)

(** A provider that is always rate limited, one that answers with no
    sample, and one whose credentials expire after a first rate limit. *)
Definition outage_provider (k : nat) (req : request) : provider_result :=
  Fails (openai.Error openai.RateLimitError "slow down").

Definition silent_provider (k : nat) (req : request) : provider_result :=
  Response [].

Definition expiring_provider (k : nat) (req : request) : provider_result :=
  match k with
  | 0 => Fails (openai.Error openai.RateLimitError "slow down")
  | _ => Fails (openai.Error openai.AuthenticationError "expired")
  end.

Definition demo_empty : state :=
  State (Chat demo_holes [] (3 # 10) "gpt-4") 0 [].

(** A root that does not exist, and one with three rule files of which
    only the first of the traversal can be read. *)
Definition demo_missing_tree (path : string) : node := File.

Definition demo_locked_tree (path : string) : node :=
  Dir [("a", Dir [("rules.toml", File); ("z_rules.toml", File)]);
       ("b_rules.toml", File)].

Definition demo_locked_read_text (path : string) : option string :=
  if String.eqb path "../../src/cleanup_rules/java/b_rules.toml"
  then Some "x = 1"
  else None.

(** A file system in which every file can be read. *)
Definition demo_read_text_all (path : string) : option string :=
  Some (demo_text path).

(** Leaf lemmas on strings. *)

Lemma append_cons (x : ascii) (a b : string) :
  String x a +:+ b = String x (a +:+ b).
Proof. reflexivity. Qed.

Lemma append_assoc (a b c : string) : (a +:+ b) +:+ c = a +:+ (b +:+ c).
Proof.
  induction a as [|x a IH]; [reflexivity |].
  by rewrite !append_cons, IH.
Qed.

Lemma append_empty_r (a : string) : a +:+ "" = a.
Proof.
  induction a as [|x a IH]; [reflexivity |].
  by rewrite append_cons, IH.
Qed.

(** ** The completion client *)

Lemma contents_of_shifted (pre choices : list string) :
  omap (λ i, (pre ++ choices) !! i) (seq (length pre) (length choices)) = choices.
Proof.
  revert pre. induction choices as [|c choices IH]; intros pre; [done |].
  cbn [length seq omap list_omap].
  rewrite list_lookup_middle by done.
  f_equal.
  specialize (IH (pre ++ [c])).
  rewrite <- app_assoc, length_app in IH. cbn in IH.
  by rewrite Nat.add_1_r in IH.
Qed.

Lemma contents_of_id (choices : list string) : contents_of choices = choices.
Proof. exact (contents_of_shifted [] choices). Qed.

Section one_attempt.
Variables (n_samples : Z) (s : state) (latest : message).
Hypothesis Hlatest : last (messages (self s)) = Some latest.

Lemma attempt_success (choices : list string) :
  provider (calls s) (request_of (self s) n_samples) = Response choices →
  attempt n_samples s =
    (Ok (Some choices),
     State (self s) (S (calls s))
           (trace s ++ attempt_events (self s) latest n_samples)).
Proof.
  intros Hp.
  unfold attempt, try_except, bind, emit, last_message, ChatCompletion_create, ret.
  cbn. rewrite Hlatest. cbn. unfold request_of in Hp. rewrite Hp.
  rewrite contents_of_id. unfold attempt_events, request_of.
  by rewrite <- !app_assoc.
Qed.

Lemma attempt_transient (e : openai.error) :
  provider (calls s) (request_of (self s) n_samples) = Fails e →
  caught (ProviderError e) = true →
  attempt n_samples s =
    (Ok None,
     State (self s) (S (calls s))
           (trace s ++ attempt_events (self s) latest n_samples
                    ++ failure_events e)).
Proof.
  intros Hp Hc.
  unfold attempt, try_except, bind, emit, last_message, ChatCompletion_create, ret.
  cbn. rewrite Hlatest. cbn. unfold request_of in Hp. rewrite Hp, Hc.
  unfold attempt_events, failure_events, request_of. cbn.
  by rewrite <- !app_assoc.
Qed.

Lemma attempt_fatal (e : openai.error) :
  provider (calls s) (request_of (self s) n_samples) = Fails e →
  caught (ProviderError e) = false →
  attempt n_samples s =
    (Raise (ProviderError e),
     State (self s) (S (calls s))
           (trace s ++ attempt_events (self s) latest n_samples)).
Proof.
  intros Hp Hc.
  unfold attempt, try_except, bind, emit, last_message, ChatCompletion_create, ret.
  cbn. rewrite Hlatest. cbn. unfold request_of in Hp. rewrite Hp, Hc.
  unfold attempt_events, request_of.
  by rewrite <- !app_assoc.
Qed.
End one_attempt.

(** With no message at all the request is never sent: [messages[-1]]
    raises inside the [try], and [IndexError] is not caught. *)
Lemma attempt_no_message (n_samples : Z) (s : state) :
  messages (self s) = [] →
  attempt n_samples s =
    (Raise IndexError,
     State (self s) (calls s)
           (trace s ++ [LogDebug "Attempting to get completion from GPT."])).
Proof.
  intros Hm.
  unfold attempt, try_except, bind, emit, last_message. cbn.
  by rewrite Hm.
Qed.

Lemma caught_transient (e : openai.error) :
  caught (ProviderError e) = true ↔ transient e.
Proof.
  unfold transient. destruct e as [c m]. cbn.
  destruct c; cbn; split; intros H; try done; auto;
    destruct H as [H | [H | H]]; discriminate H.
Qed.

Lemma caught_not_transient (e : openai.error) :
  caught (ProviderError e) = false ↔ ¬ transient e.
Proof.
  rewrite <- caught_transient. by destruct (caught (ProviderError e)).
Qed.

(** The loop steps over a run of transient failures: each costs one unit
    of fuel and one provider call, and leaves the object as it was. *)
Lemma get_completion_unroll (n_samples : Z) (latest : message)
    (errs : list openai.error) :
  ∀ (s : state) (fuel : nat),
    last (messages (self s)) = Some latest →
    fails_transiently s n_samples errs →
    get_completion (length errs + fuel) n_samples s =
      get_completion fuel n_samples
        (State (self s) (calls s + length errs)
               (trace s ++ retry_events (self s) latest n_samples errs)).
Proof.
  induction errs as [|e errs IH]; intros s fuel Hlast Hfail.
  - cbn. rewrite Nat.add_0_r, app_nil_r. by destruct s.
  - destruct (Hfail 0 e eq_refl) as [Hp Ht].
    rewrite Nat.add_0_r in Hp.
    apply caught_transient in Ht.
    cbn [length Nat.add get_completion]. unfold bind at 1.
    rewrite (attempt_transient n_samples s latest Hlast e Hp Ht).
    rewrite IH; cbn [self calls trace]; [| done |].
    + unfold retry_events. rewrite bind_cons, <- !app_assoc.
      by rewrite Nat.add_succ_r.
    + intros i e' Hi. specialize (Hfail (S i) e' Hi).
      by rewrite Nat.add_succ_r in Hfail.
Qed.

Lemma sleeps_retry_events (o : PiranhaGPTChat) (latest : message)
    (n_samples : Z) (errs : list openai.error) :
  sleeps (retry_events o latest n_samples errs) = replicate (length errs) 10%Z.
Proof.
  unfold retry_events. induction errs as [|e errs IH]; [done |].
  rewrite bind_cons. unfold sleeps in *. rewrite omap_app, IH. done.
Qed.

Lemma logged_errors_retry_events (o : PiranhaGPTChat) (latest : message)
    (n_samples : Z) (errs : list openai.error) :
  logged_errors (retry_events o latest n_samples errs) = ProviderError <$> errs.
Proof.
  unfold retry_events. induction errs as [|e errs IH]; [done |].
  rewrite bind_cons. unfold logged_errors in *. rewrite omap_app, IH. done.
Qed.

Lemma requests_retry_events (o : PiranhaGPTChat) (latest : message)
    (n_samples : Z) (errs : list openai.error) :
  requests (retry_events o latest n_samples errs) =
    replicate (length errs) (request_of o n_samples).
Proof.
  unfold retry_events. induction errs as [|e errs IH]; [done |].
  rewrite bind_cons. unfold requests in *. rewrite omap_app, IH. done.
Qed.

(** The run of [get_completion] over N transient failures and a success. *)
Lemma get_completion_run (fuel : nat) (n_samples : Z)
    (s : state) (latest : message) (errs : list openai.error)
    (choices : list string) :
  last (messages (self s)) = Some latest →
  fails_transiently s n_samples errs →
  provider (calls s + length errs) (request_of (self s) n_samples) = Response choices →
  length errs < fuel →
  get_completion fuel n_samples s =
    (Ok choices,
     State (self s) (calls s + length errs + 1)
           (trace s ++ retry_events (self s) latest n_samples errs
                    ++ attempt_events (self s) latest n_samples)).
Proof.
  intros Hlast Hfail Hok Hfuel.
  replace fuel with (length errs + S (fuel - S (length errs))) by lia.
  rewrite (get_completion_unroll n_samples latest errs s _ Hlast Hfail).
  cbn [get_completion]. unfold bind.
  erewrite attempt_success; [| exact Hlast | exact Hok].
  cbn. unfold ret. rewrite <- app_assoc. do 2 f_equal. lia.
Qed.

(** C1: when the provider raises a transient error (rate limit, timeout
    or generic provider error) on each of the first N attempts and
    succeeds on attempt N+1, [get_completion] returns the sample list of
    the successful attempt; it has logged each failure, in order, and
    slept N times, 10 seconds each time, whatever N is. *)
Theorem get_completion_retries_then_returns (fuel : nat) (n_samples : Z)
    (s : state) (latest : message) (errs : list openai.error)
    (choices : list string) :
  last (messages (self s)) = Some latest →
  fails_transiently s n_samples errs →
  provider (calls s + length errs) (request_of (self s) n_samples) = Response choices →
  length errs < fuel →
  let evs := retry_events (self s) latest n_samples errs
             ++ attempt_events (self s) latest n_samples in
  get_completion fuel n_samples s =
    (Ok choices, State (self s) (calls s + length errs + 1) (trace s ++ evs))
  ∧ logged_errors evs = ProviderError <$> errs
  ∧ sleeps evs = replicate (length errs) 10%Z.
Proof.
  intros Hlast Hfail Hok Hfuel evs. subst evs. split; [| split].
  - by apply get_completion_run.
  - unfold logged_errors. rewrite omap_app.
    fold (logged_errors (retry_events (self s) latest n_samples errs)).
    rewrite logged_errors_retry_events. cbn. by rewrite app_nil_r.
  - unfold sleeps. rewrite omap_app.
    fold (sleeps (retry_events (self s) latest n_samples errs)).
    rewrite sleeps_retry_events. cbn. by rewrite app_nil_r.
Qed.

(** Whatever one turn of the loop does, it leaves the object alone. *)
Lemma attempt_self (n_samples : Z) (s : state) :
  self (snd (attempt n_samples s)) = self s.
Proof.
  unfold attempt, try_except, bind, emit, last_message, ChatCompletion_create, ret.
  cbn. destruct (last (messages (self s))) as [latest|]; cbn; [| done].
  destruct (provider _ _) as [choices | e]; cbn; [done |].
  by destruct (caught (ProviderError e)).
Qed.

Lemma get_completion_self (fuel : nat) (n_samples : Z) :
  ∀ s, self (snd (get_completion fuel n_samples s)) = self s.
Proof.
  induction fuel as [|fuel IH]; intros s; [done |].
  cbn [get_completion]. unfold bind.
  pose proof (attempt_self n_samples s) as Ha.
  destruct (attempt n_samples s) as [[[completions|] | e |] s1]; cbn in *; try done.
  by rewrite IH.
Qed.

(** A run that came to an end does not depend on the fuel it was given. *)
Lemma get_completion_more_fuel (fuel extra : nat) (n_samples : Z) :
  ∀ s r s',
    get_completion fuel n_samples s = (r, s') →
    r ≠ OutOfFuel →
    get_completion (fuel + extra) n_samples s = (r, s').
Proof.
  induction fuel as [|fuel IH]; intros s r s' Hrun Hr.
  - cbn in Hrun. injection Hrun as <- <-. done.
  - revert Hrun. cbn [get_completion Nat.add]. unfold bind.
    destruct (attempt n_samples s) as [[[completions|] | e |] s1]; try done.
    intros Hrun. by apply IH.
Qed.

(** While the provider keeps failing with transient errors the loop
    neither returns nor raises: there is no bound on the retries. *)
Lemma get_completion_persistent_outage (fuel : nat) (n_samples : Z)
    (latest : message) :
  ∀ s,
    last (messages (self s)) = Some latest →
    (∀ k, calls s ≤ k →
       ∃ e, provider k (request_of (self s) n_samples) = Fails e ∧ transient e) →
    fst (get_completion fuel n_samples s) = OutOfFuel.
Proof.
  induction fuel as [|fuel IH]; intros s Hlast Hout; [done |].
  destruct (Hout (calls s) (le_n _)) as (e & Hp & Ht).
  apply caught_transient in Ht.
  cbn [get_completion]. unfold bind.
  rewrite (attempt_transient n_samples s latest Hlast e Hp Ht).
  apply IH; cbn [self calls]; [done |].
  intros k Hk. apply Hout. lia.
Qed.

(** The cache-hit branch of [get_model_response]. *)
Lemma get_model_response_cache_hit (fuel : nat) (s : state) (latest : message) :
  last (messages (self s)) = Some latest →
  role latest = "assistant" →
  get_model_response fuel s =
    (Ok (content latest),
     State (self s) (calls s)
           (trace s ++ [Print ("System: " +:+ content latest +:+ nl)])).
Proof.
  intros Hlast Hrole.
  unfold get_model_response, bind, last_message. rewrite Hlast, Hrole.
  reflexivity.
Qed.

(** The other branch, when the request goes through after any number of
    transient failures: the first sample is appended once and returned. *)
Lemma get_model_response_fetches (fuel : nat) (s : state) (latest : message)
    (errs : list openai.error) (sample : string) (others : list string) :
  last (messages (self s)) = Some latest →
  role latest ≠ "assistant" →
  fails_transiently s 1 errs →
  provider (calls s + length errs) (request_of (self s) 1) = Response (sample :: others) →
  length errs < fuel →
  get_model_response fuel s =
    (Ok sample,
     State (with_message (self s) (Message "assistant" sample))
           (calls s + length errs + 1)
           (trace s ++ retry_events (self s) latest 1 errs
                    ++ attempt_events (self s) latest 1)).
Proof.
  intros Hlast Hrole Hfail Hok Hfuel.
  pose proof (get_completion_run fuel 1 s latest errs
                (sample :: others) Hlast Hfail Hok Hfuel) as Hrun.
  unfold get_model_response, bind at 1, last_message. rewrite Hlast.
  apply String.eqb_neq in Hrole. rewrite Hrole.
  unfold bind at 1. rewrite Hrun. reflexivity.
Qed.

(** C2: when the last message has role assistant, [get_model_response]
    returns its content; the provider is not called and the conversation
    is left as it was (the reply is only printed). *)
Theorem get_model_response_returns_pending_answer (fuel : nat) (s : state)
    (latest : message) :
  last (messages (self s)) = Some latest →
  role latest = "assistant" →
  ∃ s', get_model_response fuel s = (Ok (content latest), s')
    ∧ messages (self s') = messages (self s)
    ∧ self s' = self s
    ∧ calls s' = calls s
    ∧ requests (drop (length (trace s)) (trace s')) = []
    ∧ trace s' = trace s ++ [Print ("System: " +:+ content latest +:+ nl)].
Proof.
  intros Hlast Hrole. eexists. split.
  - by apply get_model_response_cache_hit.
  - cbn. by rewrite drop_app_length.
Qed.

(** C3: when the last message is not an assistant message and the
    provider succeeds on the first attempt, [get_model_response] makes
    exactly one provider call, appends the returned sample once, as an
    assistant message, and returns its content. *)
Theorem get_model_response_first_attempt (fuel : nat) (s : state)
    (latest : message) (sample : string) (others : list string) :
  last (messages (self s)) = Some latest →
  role latest ≠ "assistant" →
  provider (calls s) (request_of (self s) 1) = Response (sample :: others) →
  0 < fuel →
  ∃ s', get_model_response fuel s = (Ok sample, s')
    ∧ messages (self s') = messages (self s) ++ [Message "assistant" sample]
    ∧ calls s' = calls s + 1
    ∧ requests (drop (length (trace s)) (trace s')) = [request_of (self s) 1].
Proof.
  intros Hlast Hrole Hok Hfuel. eexists. split.
  - apply (get_model_response_fetches fuel s latest [] sample others);
      try done; cbn; by rewrite Nat.add_0_r.
  - cbn. rewrite drop_app_length. repeat split. lia.
Qed.

(** A failure outside the transient set ends the loop at once, after
    any number of transient failures. *)
Lemma get_completion_fatal (fuel : nat) (n_samples : Z) (s : state)
    (latest : message) (errs : list openai.error) (e : openai.error) :
  last (messages (self s)) = Some latest →
  fails_transiently s n_samples errs →
  provider (calls s + length errs) (request_of (self s) n_samples) = Fails e →
  ¬ transient e →
  length errs < fuel →
  get_completion fuel n_samples s =
    (Raise (ProviderError e),
     State (self s) (calls s + length errs + 1)
           (trace s ++ retry_events (self s) latest n_samples errs
                    ++ attempt_events (self s) latest n_samples)).
Proof.
  intros Hlast Hfail Hp Hfatal Hfuel.
  apply caught_not_transient in Hfatal.
  replace fuel with (length errs + S (fuel - S (length errs))) by lia.
  rewrite (get_completion_unroll n_samples latest errs s _ Hlast Hfail).
  cbn [get_completion]. unfold bind.
  erewrite attempt_fatal; [| exact Hlast | exact Hp | exact Hfatal].
  cbn. rewrite <- app_assoc. do 2 f_equal. lia.
Qed.

Lemma get_model_response_fatal (fuel : nat) (s : state)
    (latest : message) (errs : list openai.error) (e : openai.error) :
  last (messages (self s)) = Some latest →
  role latest ≠ "assistant" →
  fails_transiently s 1 errs →
  provider (calls s + length errs) (request_of (self s) 1) = Fails e →
  ¬ transient e →
  length errs < fuel →
  get_model_response fuel s =
    (Raise (ProviderError e),
     State (self s) (calls s + length errs + 1)
           (trace s ++ retry_events (self s) latest 1 errs
                    ++ attempt_events (self s) latest 1)).
Proof.
  intros Hlast Hrole Hfail Hp Hfatal Hfuel.
  unfold get_model_response, bind at 1, last_message. rewrite Hlast.
  apply String.eqb_neq in Hrole. rewrite Hrole.
  unfold bind at 1.
  by rewrite (get_completion_fatal fuel 1 s latest errs e).
Qed.

(** C4: when the provider raises an error outside the transient set,
    [get_model_response] raises that same error; nothing is appended to
    the conversation and there is no sleep. *)
Theorem get_model_response_propagates_fatal_error (fuel : nat) (s : state)
    (latest : message) (e : openai.error) :
  last (messages (self s)) = Some latest →
  role latest ≠ "assistant" →
  provider (calls s) (request_of (self s) 1) = Fails e →
  ¬ transient e →
  0 < fuel →
  ∃ s', get_model_response fuel s = (Raise (ProviderError e), s')
    ∧ messages (self s') = messages (self s)
    ∧ sleeps (drop (length (trace s)) (trace s')) = [].
Proof.
  intros Hlast Hrole Hp Hfatal Hfuel. eexists. split.
  - apply (get_model_response_fatal fuel s latest [] e);
      try done; cbn; by rewrite Nat.add_0_r.
  - cbn. by rewrite drop_app_length.
Qed.

(** C10: after a call of [get_model_response] that succeeds, an
    assistant message with the returned content is last, so a second
    call, with nothing appended in between, returns the same string and
    makes no provider request. *)
Theorem get_model_response_twice (fuel fuel' : nat) (s s1 : state) (text : string) :
  get_model_response fuel s = (Ok text, s1) →
  (∃ m, last (messages (self s1)) = Some m
        ∧ role m = "assistant" ∧ content m = text)
  ∧ ∃ s2, get_model_response fuel' s1 = (Ok text, s2)
      ∧ self s2 = self s1
      ∧ calls s2 = calls s1
      ∧ requests (drop (length (trace s1)) (trace s2)) = [].
Proof.
  intros Hrun.
  assert (∃ m, last (messages (self s1)) = Some m
               ∧ role m = "assistant" ∧ content m = text) as (m & Hm & Hr & Hc).
  { revert Hrun. unfold get_model_response, bind at 1, last_message.
    destruct (last (messages (self s))) as [latest|] eqn:Hlast; [| done].
    destruct (String.eqb (role latest) "assistant") eqn:Hrole.
    - apply String.eqb_eq in Hrole. cbn. intros [= <- <-]. cbn. eauto.
    - unfold bind at 1.
      destruct (get_completion fuel 1 s) as [[completions | e |] s'];
        [| done | done].
      destruct completions as [|sample others]; [done |].
      cbn. intros [= <- <-]. cbn.
      exists (Message "assistant" sample). by rewrite last_snoc. }
  split; [by exists m |].
  eexists. split.
  - rewrite <- Hc. by apply get_model_response_cache_hit.
  - cbn. by rewrite drop_app_length.
Qed.

(** ** Requests carry the sample count they were asked with *)

Lemma asks_for_refl (n_samples : Z) (s s' : state) :
  trace s' = trace s → asks_for n_samples s s'.
Proof. intros H. exists []. by rewrite app_nil_r. Qed.

Lemma asks_for_trans (n_samples : Z) (s1 s2 s3 : state) :
  asks_for n_samples s1 s2 → asks_for n_samples s2 s3 → asks_for n_samples s1 s3.
Proof.
  intros (evs1 & H1 & F1) (evs2 & H2 & F2). exists (evs1 ++ evs2). split.
  - by rewrite H2, H1, app_assoc.
  - unfold requests in *. rewrite omap_app. by apply Forall_app.
Qed.

Lemma attempt_asks_for (n_samples : Z) (s : state) :
  asks_for n_samples s (snd (attempt n_samples s)).
Proof.
  unfold attempt, try_except, bind, emit, last_message, ChatCompletion_create, ret.
  cbn. destruct (last (messages (self s))) as [latest|]; cbn.
  - destruct (provider _ _) as [choices | e]; cbn.
    + eexists. rewrite <- !app_assoc. split; [done |].
      cbn. by repeat constructor.
    + destruct (caught (ProviderError e)); cbn;
        (eexists; rewrite <- !app_assoc; split; [done |]);
        cbn; by repeat constructor.
  - eexists. split; [done |]. cbn. constructor.
Qed.

Lemma get_completion_asks_for (fuel : nat) (n_samples : Z) :
  ∀ s, asks_for n_samples s (snd (get_completion fuel n_samples s)).
Proof.
  induction fuel as [|fuel IH]; intros s; [by apply asks_for_refl |].
  cbn [get_completion]. unfold bind.
  pose proof (attempt_asks_for n_samples s) as Ha.
  destruct (attempt n_samples s) as [[[completions|] | e |] s1]; cbn in *; try done.
  eapply asks_for_trans; [exact Ha | apply IH].
Qed.

Lemma get_model_response_asks_for_one (fuel : nat) (s : state) :
  asks_for 1 s (snd (get_model_response fuel s)).
Proof.
  unfold get_model_response, bind at 1, last_message.
  destruct (last (messages (self s))) as [latest|]; [| by apply asks_for_refl].
  destruct (String.eqb (role latest) "assistant").
  - cbn. eexists. split; [done |]. cbn. constructor.
  - unfold bind at 1.
    pose proof (get_completion_asks_for fuel 1 s) as Ha.
    destruct (get_completion fuel 1 s) as [[completions | e |] s1]; cbn in *; try done.
    destruct completions as [|sample others]; cbn; [done |].
    destruct Ha as (evs & Ht & Hf). by exists evs.
Qed.

(** A run of [get_completion] that returns has made a call, and returns
    what the last call answered. *)
Lemma get_completion_answer (fuel : nat) (n_samples : Z) :
  ∀ (s s' : state) (choices : list string),
    get_completion fuel n_samples s = (Ok choices, s') →
    self s' = self s
    ∧ calls s < calls s'
    ∧ provider (calls s' - 1) (request_of (self s) n_samples) = Response choices.
Proof.
  induction fuel as [|fuel IH]; intros s s' choices; [done |].
  cbn [get_completion]. unfold bind.
  destruct (last (messages (self s))) as [latest|] eqn:Hlast; cycle 1.
  { apply last_None in Hlast. by rewrite (attempt_no_message n_samples s Hlast). }
  destruct (provider (calls s) (request_of (self s) n_samples))
    as [answer | e] eqn:Hp.
  { rewrite (attempt_success n_samples s latest Hlast answer Hp).
    cbn. intros [= <- <-]. cbn. rewrite Nat.sub_0_r.
    split; [done |]. split; [lia | done]. }
  destruct (caught (ProviderError e)) eqn:Hcaught.
  - rewrite (attempt_transient n_samples s latest Hlast e Hp Hcaught).
    intros Hrun. apply IH in Hrun. cbn [self calls] in Hrun.
    destruct Hrun as (Hself & Hcalls & Hanswer).
    split; [done |]. split; [lia | done].
  - by rewrite (attempt_fatal n_samples s latest Hlast e Hp Hcaught).
Qed.

(** A call of [get_model_response] that returns either found a reply
    last in the conversation, or went to the provider: then it returns
    the first sample of the answer and has appended it, once, as an
    assistant message. *)
Lemma get_model_response_appends_first (fuel : nat) (s s' : state) (text : string) :
  get_model_response fuel s = (Ok text, s') →
  (∃ m, last (messages (self s)) = Some m
        ∧ role m = "assistant" ∧ content m = text
        ∧ messages (self s') = messages (self s)
        ∧ calls s' = calls s)
  ∨ (∃ others,
       calls s < calls s'
       ∧ provider (calls s' - 1) (request_of (self s) 1) = Response (text :: others)
       ∧ messages (self s') = messages (self s) ++ [Message "assistant" text]).
Proof.
  unfold get_model_response, bind at 1, last_message.
  destruct (last (messages (self s))) as [latest|] eqn:Hlast; [| done].
  destruct (String.eqb (role latest) "assistant") eqn:Hrole.
  - apply String.eqb_eq in Hrole. cbn. intros [= <- <-].
    left. by exists latest.
  - unfold bind at 1.
    destruct (get_completion fuel 1 s) as [[completions | e |] s1] eqn:Hrun;
      [| done | done].
    apply get_completion_answer in Hrun as (Hself & Hcalls & Hanswer).
    destruct completions as [|sample others]; [done |].
    cbn. intros [= <- <-]. cbn. rewrite Hself.
    right. by exists others.
Qed.

(** C5, as the code has it: a sample count larger than one can only be
    asked of [get_completion], which returns all the samples in the
    provider's order and, whatever its outcome, appends nothing to the
    conversation. The first sample of an answer is appended by
    [get_model_response]: it never asks for more than one sample, and
    when it has gone to the provider it returns the first sample of the
    answer and has appended it, once, as an assistant message. *)
Theorem get_completion_returns_all_samples (fuel : nat) (n_samples : Z)
    (s : state) (latest : message) (errs : list openai.error)
    (choices : list string) :
  (1 < n_samples)%Z →
  last (messages (self s)) = Some latest →
  fails_transiently s n_samples errs →
  provider (calls s + length errs) (request_of (self s) n_samples) = Response choices →
  length errs < fuel →
  (∃ s', get_completion fuel n_samples s = (Ok choices, s')
         ∧ messages (self s') = messages (self s))
  ∧ (∀ fuel' n' s0,
       messages (self (snd (get_completion fuel' n' s0))) = messages (self s0))
  ∧ (∀ fuel' s0, asks_for 1 s0 (snd (get_model_response fuel' s0)))
  ∧ ∀ fuel' s0 s1 text,
      get_model_response fuel' s0 = (Ok text, s1) →
      (∃ m, last (messages (self s0)) = Some m
            ∧ role m = "assistant" ∧ content m = text
            ∧ messages (self s1) = messages (self s0)
            ∧ calls s1 = calls s0)
      ∨ (∃ others,
           calls s0 < calls s1
           ∧ provider (calls s1 - 1) (request_of (self s0) 1)
             = Response (text :: others)
           ∧ messages (self s1) = messages (self s0) ++ [Message "assistant" text]).
Proof.
  intros _ Hlast Hfail Hok Hfuel. split; [| split; [| split]].
  - eexists. split; [by apply (get_completion_run fuel n_samples s latest errs) | done].
  - intros fuel' n' s0. by rewrite get_completion_self.
  - intros fuel' s0. apply get_model_response_asks_for_one.
  - intros fuel' s0 s1 text. apply get_model_response_appends_first.
Qed.

(** ** Filling the task template *)

Section format.
Variable kw : string → option string.

Lemma format_go_literal (lit rest : string) :
  brace_free lit = true →
  ∀ out, format_go kw (lit +:+ rest) None out = format_go kw rest None (out +:+ lit).
Proof.
  induction lit as [|c lit IH]; intros Hfree out.
  - by rewrite append_empty_r.
  - cbn [brace_free] in Hfree.
    apply andb_prop in Hfree as [Hc Hfree].
    apply andb_prop in Hc as [Hopen Hclose].
    apply negb_true_iff in Hopen, Hclose.
    rewrite append_cons. cbn [format_go]. rewrite Hopen, Hclose.
    rewrite IH by done.
    by rewrite append_assoc.
Qed.

Lemma format_go_name (name rest : string) :
  plain_name name = true →
  ∀ acc out, positional (acc +:+ name) = false →
    format_go kw (name +:+ String "}" rest) (Some acc) out =
      match kw (acc +:+ name) with
      | Some v => format_go kw rest None (out +:+ v)
      | None => Raise (KeyError (acc +:+ name))
      end.
Proof.
  induction name as [|c name IH]; intros Hplain acc out Hnamed.
  - rewrite append_empty_r in *.
    change ("" +:+ String "}" rest) with (String "}" rest). cbn.
    by rewrite Hnamed.
  - cbn [plain_name] in Hplain.
    apply andb_prop in Hplain as [Hc Hplain].
    apply andb_prop in Hc as [Hclose Hspecial].
    apply negb_true_iff in Hclose, Hspecial.
    rewrite append_cons. cbn [format_go]. rewrite Hclose, Hspecial.
    rewrite IH; [| done |].
    + by rewrite append_assoc.
    + by rewrite append_assoc.
Qed.

Lemma format_go_open (c : ascii) (t out : string) :
  Ascii.eqb c "{" = false →
  format_go kw (String "{" (String c t)) None out =
    format_go kw (String c t) (Some "") out.
Proof.
  intros Hopen.
  change (format_go kw (String "{" (String c t)) None out)
    with (if Ascii.eqb c "{" then format_go kw t None (out +:+ "{")
          else format_go kw (String c t) (Some "") out).
  by rewrite Hopen.
Qed.

Lemma format_go_field (name rest out : string) :
  plain_name name = true →
  positional name = false →
  format_go kw ("{" +:+ name +:+ "}" +:+ rest) None out =
    match kw name with
    | Some v => format_go kw rest None (out +:+ v)
    | None => Raise (KeyError name)
    end.
Proof.
  intros Hplain Hne.
  destruct name as [|c name]; [done |].
  pose proof Hplain as Hc. cbn [plain_name] in Hc.
  apply andb_prop in Hc as [Hc _]. apply andb_prop in Hc as [_ Hc].
  apply negb_true_iff in Hc. unfold field_special in Hc.
  apply orb_false_elim in Hc as [_ Hopen].
  change ("{" +:+ String c name +:+ "}" +:+ rest)
    with (String "{" (String c (name +:+ String "}" rest))).
  rewrite format_go_open by done.
  change (String c (name +:+ String "}" rest))
    with (String c name +:+ String "}" rest).
  by rewrite format_go_name.
Qed.

End format.

Lemma input_template_fields :
  input_template =
    task_head +:+ "{" +:+ "source_code" +:+ "}" +:+
    task_source_tree +:+ "{" +:+ "source_tree" +:+ "}" +:+
    task_target_tree +:+ "{" +:+ "target_tree" +:+ "}" +:+
    task_diff +:+ "{" +:+ "diff" +:+ "}" +:+
    task_hints +:+ "{" +:+ "hints" +:+ "}" +:+ task_tail.
Proof. reflexivity. Qed.

(** The template is the filled template whose values are the
    placeholders themselves. *)
Lemma input_template_placeholders :
  input_template =
    filled_template "{source_code}" "{source_tree}" "{target_tree}" "{diff}" "{hints}".
Proof. reflexivity. Qed.

(** [input_template.format] looks the five names up in the order of the
    template and stops at the first one missing. *)
Lemma format_input_template (kwargs : gmap string string) :
  format input_template kwargs =
    match kwargs !! "source_code" with
    | None => Raise (KeyError "source_code")
    | Some source_code =>
    match kwargs !! "source_tree" with
    | None => Raise (KeyError "source_tree")
    | Some source_tree =>
    match kwargs !! "target_tree" with
    | None => Raise (KeyError "target_tree")
    | Some target_tree =>
    match kwargs !! "diff" with
    | None => Raise (KeyError "diff")
    | Some diff =>
    match kwargs !! "hints" with
    | None => Raise (KeyError "hints")
    | Some hints =>
        Ok (filled_template source_code source_tree target_tree diff hints)
    end end end end end.
Proof.
  unfold format. rewrite input_template_fields.
  rewrite format_go_literal, format_go_field by done.
  destruct (kwargs !! "source_code") as [source_code|]; [| done].
  rewrite format_go_literal, format_go_field by done.
  destruct (kwargs !! "source_tree") as [source_tree|]; [| done].
  rewrite format_go_literal, format_go_field by done.
  destruct (kwargs !! "target_tree") as [target_tree|]; [| done].
  rewrite format_go_literal, format_go_field by done.
  destruct (kwargs !! "diff") as [diff|]; [| done].
  rewrite format_go_literal, format_go_field by done.
  destruct (kwargs !! "hints") as [hints|]; [| done].
  rewrite <- (append_empty_r task_tail), format_go_literal by done.
  cbn [format_go]. unfold filled_template.
  by rewrite !append_assoc.
Qed.

(** ** Construction *)

Lemma for_files_returns_or_raises (root : string) (files : list string) :
  ∀ acc, for_files root files acc ≠ OutOfFuel.
Proof.
  induction files as [|file files IH]; intros acc; cbn [for_files]; [done |].
  destruct (endswith file "rules.toml"); [| apply IH].
  destruct (read_text (path_join root file)); [apply IH | done].
Qed.

Lemma for_walk_returns_or_raises (triples : list (string * list string * list string)) :
  ∀ acc, for_walk triples acc ≠ OutOfFuel.
Proof.
  induction triples as [|[[root dirs] files] triples IH]; intros acc;
    cbn [for_walk]; [done |].
  pose proof (for_files_returns_or_raises root files acc) as Hf.
  destruct (for_files root files acc); [apply IH | done | done].
Qed.

Lemma get_examples_returns_or_raises (path : string) :
  _get_examples path ≠ OutOfFuel.
Proof. apply for_walk_returns_or_raises. Qed.

(** The generated [__init__], step by step. *)
Lemma init_run (h : gmap string string) (msgs : list message) (t : Q)
    (m : string) (s : state) :
  __init__ h msgs t m s =
    let s0 := State (Chat h msgs t m) (calls s) (trace s) in
    if negb (Qle_bool 0 t) then
      (Raise (ValueError "'temperature' must be >= 0"), s0)
    else if negb (Qle_bool t 1) then
      (Raise (ValueError "'temperature' must be <= 1"), s0)
    else if bool_decide (m ∈ ["gpt-4"; "gpt-4-32k"; "gpt-3.5-turbo-16k"]) then
      match _get_examples "../../src/cleanup_rules/java" with
      | Ok examples =>
          match format input_template h with
          | Ok task =>
              (Ok tt,
               State (with_message (Chat h msgs t m)
                        (Message "user"
                           (explanation +:+ nl +:+ examples +:+ nl +:+ task)))
                     (calls s) (trace s))
          | Raise e => (Raise e, s0)
          | OutOfFuel => (OutOfFuel, s0)
          end
      | Raise e => (Raise e, s0)
      | OutOfFuel => (OutOfFuel, s0)
      end
    else
      (Raise (ValueError "'model' must be in ['gpt-4', 'gpt-4-32k', 'gpt-3.5-turbo-16k']"), s0).
Proof.
  unfold __init__, validate_temperature, validate_model, __attrs_post_init__.
  unfold bind, gets, lift, raise, ret, append_message.
  cbn [self temperature model holes messages calls trace].
  destruct (negb (Qle_bool 0 t)); [done |].
  destruct (negb (Qle_bool t 1)); [done |].
  destruct (bool_decide _); [| done].
  destruct (_get_examples _); [| done | done].
  cbn [self temperature model holes messages calls trace].
  by destruct (format input_template h).
Qed.

(** Construction appends the first message, or nothing when it fails. *)
Lemma init_messages (h : gmap string string) (msgs : list message) (t : Q)
    (m : string) (s : state) :
  match __init__ h msgs t m s with
  | (Ok _, s') => ∃ first, messages (self s') = msgs ++ [Message "user" first]
  | (_, s') => self s' = Chat h msgs t m
  end
  ∧ calls (snd (__init__ h msgs t m s)) = calls s
  ∧ trace (snd (__init__ h msgs t m s)) = trace s.
Proof.
  rewrite init_run. cbn zeta.
  destruct (negb (Qle_bool 0 t)); [done |].
  destruct (negb (Qle_bool t 1)); [done |].
  destruct (bool_decide _); [| done].
  destruct (_get_examples _); [| done | done].
  destruct (format input_template h); [| done | done].
  split; [| done]. by eexists.
Qed.

Lemma format_missing_hole (h : gmap string string) (key : string) :
  key ∈ required_holes →
  h !! key = None →
  ∃ k, first_missing h = Some k ∧ k ∈ required_holes ∧ h !! k = None
       ∧ format input_template h = Raise (KeyError k).
Proof.
  intros Hin Hnone. rewrite format_input_template.
  unfold first_missing, required_holes in *. cbn [List.find].
  destruct (h !! "source_code") eqn:H1; cycle 1.
  { exists "source_code". rewrite bool_decide_eq_true_2 by done.
    repeat split; try done. by repeat constructor. }
  rewrite bool_decide_eq_false_2 by done.
  destruct (h !! "source_tree") eqn:H2; cycle 1.
  { exists "source_tree". rewrite bool_decide_eq_true_2 by done.
    repeat split; try done. by repeat constructor. }
  rewrite bool_decide_eq_false_2 by done.
  destruct (h !! "target_tree") eqn:H3; cycle 1.
  { exists "target_tree". rewrite bool_decide_eq_true_2 by done.
    repeat split; try done. by repeat constructor. }
  rewrite bool_decide_eq_false_2 by done.
  destruct (h !! "diff") eqn:H4; cycle 1.
  { exists "diff". rewrite bool_decide_eq_true_2 by done.
    repeat split; try done. by repeat constructor. }
  rewrite bool_decide_eq_false_2 by done.
  destruct (h !! "hints") eqn:H5; cycle 1.
  { exists "hints". rewrite bool_decide_eq_true_2 by done.
    repeat split; try done. by repeat constructor. }
  exfalso.
  repeat (apply elem_of_cons in Hin as [-> | Hin]; [congruence |]).
  by apply elem_of_nil in Hin.
Qed.

(** C7: when [holes] lacks one of the required template keys,
    construction fails: no message is added to the list, no provider
    call is made. The failure is a configuration error whenever the
    examples could be read, and it is the [KeyError] of the first
    missing key when the validated fields are in range as well. *)
Theorem construction_rejects_missing_hole (h : gmap string string)
    (msgs : list message) (t : Q) (m : string) (s : state) (key : string) :
  key ∈ required_holes →
  h !! key = None →
  ∃ e k,
    __init__ h msgs t m s =
      (Raise e, State (Chat h msgs t m) (calls s) (trace s))
    ∧ first_missing h = Some k
    ∧ ((∃ examples, _get_examples "../../src/cleanup_rules/java" = Ok examples) →
       configuration_error e = true
       ∧ (Qle_bool 0 t = true → Qle_bool t 1 = true →
          m ∈ ["gpt-4"; "gpt-4-32k"; "gpt-3.5-turbo-16k"] →
          e = KeyError k)).
Proof.
  intros Hin Hnone.
  destruct (format_missing_hole h key Hin Hnone) as (k & Hk & _ & _ & Hformat).
  rewrite init_run, Hformat. cbn zeta.
  destruct (Qle_bool 0 t); cbn [negb].
  2: { eexists _, k. repeat split; try done. }
  destruct (Qle_bool t 1); cbn [negb].
  2: { eexists _, k. repeat split; try done. }
  destruct (bool_decide _) eqn:Hm.
  2: { eexists _, k. repeat split; try done.
       intros _ _ Hmodel. by apply bool_decide_eq_false in Hm. }
  pose proof (get_examples_returns_or_raises "../../src/cleanup_rules/java") as Hex.
  destruct (_get_examples _) as [examples | e |]; [| | done].
  - eexists _, k. repeat split; done.
  - exists e, k. split; [done |]. split; [done |]. by intros [? ?].
Qed.

(** C8: when [holes] has every required key (and the validated fields
    are in range and the examples can be read), construction appends
    one user message whose content is the explanation, then the example
    corpus, then the task template with each placeholder replaced by
    the value [holes] gives it; with the default empty list it is the
    only message. *)
Theorem construction_seeds_prompt (h : gmap string string)
    (msgs : list message) (t : Q) (m : string) (s : state)
    (source_code source_tree target_tree diff hints examples : string) :
  h !! "source_code" = Some source_code →
  h !! "source_tree" = Some source_tree →
  h !! "target_tree" = Some target_tree →
  h !! "diff" = Some diff →
  h !! "hints" = Some hints →
  Qle_bool 0 t = true →
  Qle_bool t 1 = true →
  m ∈ ["gpt-4"; "gpt-4-32k"; "gpt-3.5-turbo-16k"] →
  _get_examples "../../src/cleanup_rules/java" = Ok examples →
  __init__ h msgs t m s =
    (Ok tt,
     State (Chat h
              (msgs ++ [Message "user"
                          (explanation +:+ nl +:+ examples +:+ nl +:+
                           filled_template source_code source_tree
                                           target_tree diff hints)])
              t m)
           (calls s) (trace s)).
Proof.
  intros H1 H2 H3 H4 H5 Hge Hle Hmodel Hex.
  rewrite init_run, format_input_template, H1, H2, H3, H4, H5, Hge, Hle, Hex.
  by rewrite bool_decide_eq_true_2.
Qed.

(** ** The conversation only grows *)

Lemma get_model_response_messages (fuel : nat) (s s' : state) (r : result string) :
  get_model_response fuel s = (r, s') →
  messages (self s') = messages (self s)
  ∨ ∃ reply, messages (self s') = messages (self s) ++ [Message "assistant" reply].
Proof.
  unfold get_model_response, bind at 1, last_message.
  destruct (last (messages (self s))) as [latest|]; [| intros [= <- <-]; by left].
  destruct (String.eqb (role latest) "assistant"); [intros [= <- <-]; by left |].
  unfold bind at 1.
  pose proof (get_completion_self fuel 1 s) as Hself.
  destruct (get_completion fuel 1 s) as [[completions | e |] s1]; cbn in Hself.
  - destruct completions as [|sample others]; cbn; intros [= <- <-].
    + left. by rewrite Hself.
    + right. exists sample. cbn. by rewrite Hself.
  - intros [= <- <-]. left. by rewrite Hself.
  - intros [= <- <-]. left. by rewrite Hself.
Qed.

(** One operation appends at most one message, after all the others:
    the message it is given, for the two append methods, and an
    assistant message or nothing for [get_model_response]. *)
Lemma after_appends (op : operation) (s : state) :
  ∃ new, messages (self (after op s)) = messages (self s) ++ new
    ∧ length new ≤ 1
    ∧ (∀ m, appended_by op = Some m → new = [m])
    ∧ Forall (λ m, role m = "user" ∨ role m = "assistant") new.
Proof.
  destruct op as [text | text | fuel]; cbn.
  - exists [Message "assistant" text].
    split; [done |]. split; [done |]. split; [by intros m [= <-] |].
    constructor; [by right | constructor].
  - exists [Message "user" text].
    split; [done |]. split; [done |]. split; [by intros m [= <-] |].
    constructor; [by left | constructor].
  - destruct (get_model_response fuel s) as [r s'] eqn:Hrun.
    destruct (get_model_response_messages fuel s s' r Hrun) as [H | [reply H]]; cbn.
    + exists []. rewrite app_nil_r.
      split; [done |]. split; [cbn; lia |]. split; [done | constructor].
    + exists [Message "assistant" reply].
      split; [done |]. split; [done |]. split; [done |].
      constructor; [by right | constructor].
Qed.

Lemma after_all_prefix (ops : list operation) :
  ∀ s, messages (self s) `prefix_of` messages (self (after_all ops s)).
Proof.
  unfold after_all.
  induction ops as [|op ops IH]; intros s; cbn [foldl]; [done |].
  etrans; [| apply IH].
  destruct (after_appends op s) as (new & -> & _).
  by apply prefix_app_r.
Qed.

(** C6: after a successful construction the conversation is never
    empty, whatever operations follow; construction and every operation
    only append: the messages already there stay, in their order and
    unchanged, and one append adds exactly one role-tagged message. *)
Theorem conversation_is_append_only (h : gmap string string)
    (msgs : list message) (t : Q) (m : string) (s0 s1 : state)
    (ops : list operation) :
  __init__ h msgs t m s0 = (Ok tt, s1) →
  (∃ first, messages (self s1) = msgs ++ [Message "user" first])
  ∧ messages (self (after_all ops s1)) ≠ []
  ∧ messages (self s1) `prefix_of` messages (self (after_all ops s1))
  ∧ ∀ op s, ∃ new,
      messages (self (after op s)) = messages (self s) ++ new
      ∧ length new ≤ 1
      ∧ (∀ m, appended_by op = Some m → new = [m])
      ∧ Forall (λ m, role m = "user" ∨ role m = "assistant") new.
Proof.
  intros Hinit.
  destruct (init_messages h msgs t m s0) as [Hfirst _].
  rewrite Hinit in Hfirst. destruct Hfirst as [first Hfirst].
  pose proof (after_all_prefix ops s1) as Hprefix.
  split; [by exists first |]. split; [| split; [done |]].
  - destruct Hprefix as [new Hnew]. rewrite Hnew, Hfirst.
    rewrite <- !app_assoc. by destruct msgs.
  - apply after_appends.
Qed.

(** ** The example corpus *)

Lemma split_nl_nonempty (s : string) : split_nl s ≠ [].
Proof.
  destruct s as [|c s]; cbn; [done |].
  destruct (Ascii.eqb c "010"); [done |]. by destruct (split_nl s).
Qed.

(** Splitting into lines and joining them again gives the text back, so
    dropping lines between the two removes those lines and nothing else. *)
Lemma join_split_nl (s : string) : join_nl (split_nl s) = s.
Proof.
  unfold join_nl. induction s as [|c s IH]; [done |].
  pose proof (split_nl_nonempty s) as Hne.
  cbn [split_nl]. destruct (Ascii.eqb c "010") eqn:Hc.
  - apply Ascii.eqb_eq in Hc as ->.
    destruct (split_nl s) as [|h t]; [done |].
    cbn [String.concat]. cbn [String.concat] in IH. by rewrite IH.
  - destruct (split_nl s) as [|h t]; [done |].
    cbn [String.concat]. cbn [String.concat] in IH.
    destruct t; by rewrite <- IH.
Qed.

Lemma concat_cons (x : string) (l : list string) :
  String.concat "" (x :: l) = x +:+ String.concat "" l.
Proof. destruct l; cbn [String.concat]; [by rewrite append_empty_r | done]. Qed.

Lemma concat_app (l1 l2 : list string) :
  String.concat "" (l1 ++ l2) = String.concat "" l1 +:+ String.concat "" l2.
Proof.
  induction l1 as [|x l1 IH]; [done |].
  by rewrite <- app_comm_cons, !concat_cons, IH, append_assoc.
Qed.

Lemma matching_app (l1 l2 : list (string * string)) :
  matching (l1 ++ l2) = matching l1 ++ matching l2.
Proof. unfold matching. by rewrite List.filter_app, fmap_app. Qed.

Lemma blocks_app (text_of : string → string) (l1 l2 : list string) :
  blocks text_of (l1 ++ l2) = blocks text_of l1 ++ blocks text_of l2.
Proof. apply fmap_app. Qed.

Section loops.
Variable text_of : string → string.

(** The inner loop appends the blocks of the matching files of one
    directory, in order. *)
Lemma for_files_blocks (root : string) (files : list string) :
  ∀ dirs acc,
    (∀ p, p ∈ matching (files_of (root, dirs, files)) → read_text p = Some (text_of p)) →
    for_files root files acc =
      Ok (acc +:+ String.concat ""
                    (blocks text_of (matching (files_of (root, dirs, files))))).
Proof.
  induction files as [|file files IH]; intros dirs acc Hread.
  - cbn. by rewrite append_empty_r.
  - cbn [for_files]. unfold files_of, matching in *.
    rewrite fmap_cons in *. cbn [List.filter fst] in *.
    destruct (endswith file "rules.toml") eqn:Hsuffix.
    + rewrite fmap_cons in *. cbn [snd] in *.
      rewrite (Hread (path_join root file)) by apply list_elem_of_here.
      rewrite (IH dirs); cycle 1.
      { intros p Hp. apply Hread. by apply list_elem_of_further. }
      unfold blocks. rewrite fmap_cons, concat_cons.
      unfold example_block, remove_comment_lines.
      by rewrite !append_assoc.
    + apply (IH dirs). intros p Hp. by apply Hread.
Qed.

(** The outer loop does so for each directory of the walk, in order. *)
Lemma for_walk_blocks (triples : list (string * list string * list string)) :
  ∀ acc,
    (∀ p, p ∈ matching (triples ≫= files_of) → read_text p = Some (text_of p)) →
    for_walk triples acc =
      Ok (acc +:+ String.concat "" (blocks text_of (matching (triples ≫= files_of)))).
Proof.
  induction triples as [|[[root dirs] files] triples IH]; intros acc Hread.
  - cbn. by rewrite append_empty_r.
  - cbn [for_walk]. rewrite bind_cons, matching_app in *.
    rewrite (for_files_blocks root files dirs); cycle 1.
    { intros p Hp. apply Hread, elem_of_app. by left. }
    rewrite IH; cycle 1.
    { intros p Hp. apply Hread, elem_of_app. by right. }
    by rewrite blocks_app, concat_app, append_assoc.
Qed.

End loops.

(** The loops either read every matching file or stop at one that
    cannot be read, with its error: a failed read is not swallowed. *)
Lemma for_files_outcome (root : string) (files : list string) :
  ∀ dirs acc,
    (∃ out, for_files root files acc = Ok out)
    ∨ (∃ p, p ∈ matching (files_of (root, dirs, files))
            ∧ read_text p = None
            ∧ for_files root files acc = Raise (ReadError p)).
Proof.
  induction files as [|file files IH]; intros dirs acc; [left; by eexists |].
  cbn [for_files]. unfold files_of, matching in *.
  rewrite fmap_cons. cbn [List.filter fst].
  destruct (endswith file "rules.toml") eqn:Hsuffix; [| apply (IH dirs)].
  rewrite fmap_cons. cbn [snd].
  destruct (read_text (path_join root file)) as [text|] eqn:Hread.
  - destruct (IH dirs
                ((acc +:+ "<file_name_start> " +:+ path_join root file
                      +:+ " <file_name_end>" +:+ nl) +:+
                 "```toml " +:+
                 join_nl (List.filter (λ line, negb (startswith line "#"))
                                      (split_nl text)) +:+ "```" +:+ nl))
      as [Hok | (p & Hp & Hnone & Hraise)]; [by left |].
    right. exists p. split; [by apply list_elem_of_further | done].
  - right. exists (path_join root file). split; [apply list_elem_of_here | done].
Qed.

Lemma for_walk_outcome (triples : list (string * list string * list string)) :
  ∀ acc,
    (∃ out, for_walk triples acc = Ok out)
    ∨ (∃ p, p ∈ matching (triples ≫= files_of)
            ∧ read_text p = None
            ∧ for_walk triples acc = Raise (ReadError p)).
Proof.
  induction triples as [|[[root dirs] files] triples IH]; intros acc;
    [left; by eexists |].
  cbn [for_walk]. rewrite bind_cons, matching_app.
  destruct (for_files_outcome root files dirs acc)
    as [[out ->] | (p & Hp & Hnone & ->)].
  - destruct (IH out) as [Hok | (p & Hp & Hnone & Hraise)]; [by left |].
    right. exists p. split; [apply elem_of_app; by right | done].
  - right. exists p. split; [apply elem_of_app; by left | done].
Qed.

Lemma get_examples_outcome (path : string) :
  (∃ examples, _get_examples path = Ok examples)
  ∨ (∃ p, p ∈ rule_files path (tree_at path)
          ∧ read_text p = None
          ∧ _get_examples path = Raise (ReadError p)).
Proof. apply for_walk_outcome. Qed.

(** C9: for every root directory (whose matching files can be read),
    [_get_examples] returns the concatenation, in the order of the
    traversal, of one block per file whose name ends with [rules.toml]:
    the full path in its header tag, then the content without the lines
    that start with [#]. Other files contribute nothing. *)
Theorem get_examples_concatenates_rule_files (path : string)
    (text_of : string → string) :
  (∀ p, p ∈ rule_files path (tree_at path) → read_text p = Some (text_of p)) →
  _get_examples path = Ok (examples_text path (tree_at path) text_of).
Proof.
  intros Hread. unfold _get_examples, examples_text, rule_files,
    files_in_traversal_order in *.
  by rewrite (for_walk_blocks text_of).
Qed.

(** ** The example corpus, whatever the files *)

Lemma find_app {A} (f : A → bool) (l1 l2 : list A) :
  List.find f (l1 ++ l2) =
    match List.find f l1 with
    | Some x => Some x
    | None => List.find f l2
    end.
Proof.
  induction l1 as [|x l1 IH]; [done |].
  cbn. by destruct (f x).
Qed.

(** The inner loop stops at the first matching file that cannot be
    read; otherwise it appends the blocks of all of them. *)
Lemma for_files_total (root : string) (files : list string) :
  ∀ dirs acc,
    for_files root files acc =
      match first_unreadable (matching (files_of (root, dirs, files))) with
      | Some p => Raise (ReadError p)
      | None =>
          Ok (acc +:+ String.concat ""
                (blocks text_or_empty (matching (files_of (root, dirs, files)))))
      end.
Proof.
  induction files as [|file files IH]; intros dirs acc.
  - cbn. by rewrite append_empty_r.
  - cbn [for_files]. unfold files_of, matching, first_unreadable in *.
    rewrite fmap_cons. cbn [List.filter fst].
    destruct (endswith file "rules.toml") eqn:Hsuffix; [| apply (IH dirs)].
    rewrite fmap_cons. cbn [snd List.find].
    destruct (read_text (path_join root file)) as [text|] eqn:Hread.
    + rewrite bool_decide_eq_false_2 by done.
      rewrite (IH dirs).
      destruct (List.find _ _); [done |].
      unfold blocks. rewrite fmap_cons, concat_cons.
      unfold example_block, remove_comment_lines, text_or_empty.
      rewrite Hread. cbn [default]. by rewrite !append_assoc.
    + by rewrite bool_decide_eq_true_2.
Qed.

Lemma for_walk_total (triples : list (string * list string * list string)) :
  ∀ acc,
    for_walk triples acc =
      match first_unreadable (matching (triples ≫= files_of)) with
      | Some p => Raise (ReadError p)
      | None =>
          Ok (acc +:+ String.concat ""
                (blocks text_or_empty (matching (triples ≫= files_of))))
      end.
Proof.
  induction triples as [|[[root dirs] files] triples IH]; intros acc.
  - cbn. by rewrite append_empty_r.
  - cbn [for_walk]. rewrite bind_cons, matching_app.
    unfold first_unreadable in *. rewrite find_app.
    rewrite (for_files_total root files dirs). unfold first_unreadable.
    destruct (List.find _ (matching (files_of (root, dirs, files)))); [done |].
    rewrite IH. destruct (List.find _ _); [done |].
    by rewrite blocks_app, concat_app, append_assoc.
Qed.

Lemma first_unreadable_none (paths : list string) :
  first_unreadable paths = None ↔ ∀ p, p ∈ paths → is_Some (read_text p).
Proof.
  unfold first_unreadable. induction paths as [|q paths IH]; cbn.
  - split; [| done]. intros _ p Hp. by apply elem_of_nil in Hp.
  - destruct (read_text q) as [text|] eqn:Hq.
    + rewrite bool_decide_eq_false_2 by done.
      rewrite IH. split.
      * intros Hall p [-> | Hp]%elem_of_cons; [by rewrite Hq | by apply Hall].
      * intros Hall p Hp. apply Hall. by apply list_elem_of_further.
    + rewrite bool_decide_eq_true_2 by done.
      split; [done |]. intros Hall.
      destruct (Hall q (list_elem_of_here _ _)) as [text Htext]. congruence.
Qed.

Lemma first_unreadable_some (paths : list string) (p : string) :
  first_unreadable paths = Some p → p ∈ paths ∧ read_text p = None.
Proof.
  unfold first_unreadable. intros [Hin Hp]%List.find_some.
  split; [by apply list_elem_of_In |]. by apply bool_decide_eq_true in Hp.
Qed.

Lemma get_examples_reads_in_order_aux (path : string) :
  _get_examples path =
    match first_unreadable (rule_files path (tree_at path)) with
    | Some p => Raise (ReadError p)
    | None => Ok (examples_text path (tree_at path) text_or_empty)
    end.
Proof.
  unfold _get_examples, examples_text, rule_files, files_in_traversal_order.
  by rewrite for_walk_total.
Qed.

(** X1: [_get_examples] reads the matching files in the order of the
    traversal and raises the error of the first one that cannot be
    read: the files after it are not looked at and the text gathered
    before it is lost. *)
Theorem get_examples_raises_first_read_error (path p : string)
    (before after : list string) :
  rule_files path (tree_at path) = before ++ p :: after →
  (∀ q, q ∈ before → is_Some (read_text q)) →
  read_text p = None →
  _get_examples path = Raise (ReadError p).
Proof.
  intros Hfiles Hbefore Hp.
  rewrite get_examples_reads_in_order_aux, Hfiles.
  unfold first_unreadable. rewrite find_app.
  apply first_unreadable_none in Hbefore. unfold first_unreadable in Hbefore.
  rewrite Hbefore. cbn [List.find].
  by rewrite bool_decide_eq_true_2.
Qed.

(** X2: with no matching file under the root, and so when the root is
    missing or is not a directory, the corpus is the empty string: no
    error is raised. *)
Theorem get_examples_without_rule_files (path : string) :
  rule_files path (tree_at path) = [] →
  _get_examples path = Ok "".
Proof.
  intros Hnone.
  unfold _get_examples. rewrite for_walk_total.
  unfold rule_files, files_in_traversal_order in Hnone. by rewrite Hnone.
Qed.

(** ** Construction, whatever the arguments *)

Lemma format_input_template_ok (h : gmap string string) :
  (∃ task, format input_template h = Ok task)
  ↔ ∀ k, k ∈ required_holes → is_Some (h !! k).
Proof.
  rewrite format_input_template. unfold required_holes. split.
  - intros [task Htask] k Hk.
    destruct (h !! "source_code") eqn:H1; [| done].
    destruct (h !! "source_tree") eqn:H2; [| done].
    destruct (h !! "target_tree") eqn:H3; [| done].
    destruct (h !! "diff") eqn:H4; [| done].
    destruct (h !! "hints") eqn:H5; [| done].
    repeat (apply elem_of_cons in Hk as [-> | Hk]; [by eexists |]).
    by apply elem_of_nil in Hk.
  - intros Hall.
    destruct (Hall "source_code") as [? ->]; [by repeat constructor |].
    destruct (Hall "source_tree") as [? ->]; [by repeat constructor |].
    destruct (Hall "target_tree") as [? ->]; [by repeat constructor |].
    destruct (Hall "diff") as [? ->]; [by repeat constructor |].
    destruct (Hall "hints") as [? ->]; [by repeat constructor |].
    by eexists.
Qed.

(** X3: construction succeeds exactly when the temperature lies in
    [0, 1], both bounds included, the model is one of the three
    supported names, every matching example file can be read and every
    required key is in [holes]. *)
Theorem construction_succeeds_iff (h : gmap string string)
    (msgs : list message) (t : Q) (m : string) (s : state) :
  (∃ s', __init__ h msgs t m s = (Ok tt, s'))
  ↔ (0 <= t)%Q ∧ (t <= 1)%Q
    ∧ m ∈ ["gpt-4"; "gpt-4-32k"; "gpt-3.5-turbo-16k"]
    ∧ (∀ p, p ∈ rule_files "../../src/cleanup_rules/java"
                   (tree_at "../../src/cleanup_rules/java") →
            is_Some (read_text p))
    ∧ (∀ k, k ∈ required_holes → is_Some (h !! k)).
Proof.
  rewrite init_run, get_examples_reads_in_order_aux. cbn zeta.
  rewrite <- !Qle_bool_iff, <- first_unreadable_none, <- format_input_template_ok.
  destruct (Qle_bool 0 t); cbn [negb]; [| split; [by intros [? ?] | by intros [? ?]]].
  destruct (Qle_bool t 1); cbn [negb];
    [| split; [by intros [? ?] | by intros (? & ? & ?)]].
  destruct (bool_decide _) eqn:Hm.
  2: { apply bool_decide_eq_false in Hm.
       split; [by intros [? ?] | by intros (? & ? & ? & ?)]. }
  apply bool_decide_eq_true in Hm.
  destruct (first_unreadable _) as [p|].
  { split; [by intros [? ?] | by intros (? & ? & ? & ? & ?)]. }
  destruct (format input_template h) as [task | e |].
  - split; [intros _ | by eexists]. repeat split; try done. by exists task.
  - split; [by intros [? ?] | by intros (? & ? & ? & ? & ? & ?)].
  - split; [by intros [? ?] | by intros (? & ? & ? & ? & ? & ?)].
Qed.

(** X4: construction ends in one of four ways only: it returns, or it
    raises a [ValueError] for a rejected field, the read error of a
    matching example file, or the [KeyError] of a required key. In each
    case the provider is not called and nothing is logged, printed or
    slept; when it raises, the list given for [messages] is untouched. *)
Theorem construction_outcomes (h : gmap string string)
    (msgs : list message) (t : Q) (m : string) (s s' : state)
    (r : result unit) :
  __init__ h msgs t m s = (r, s') →
  calls s' = calls s ∧ trace s' = trace s
  ∧ holes (self s') = h ∧ temperature (self s') = t ∧ model (self s') = m
  ∧ match r with
    | Ok _ => ∃ first, messages (self s') = msgs ++ [Message "user" first]
    | Raise (ValueError _) => messages (self s') = msgs
    | Raise (ReadError p) =>
        messages (self s') = msgs
        ∧ p ∈ rule_files "../../src/cleanup_rules/java"
                (tree_at "../../src/cleanup_rules/java")
        ∧ read_text p = None
    | Raise (KeyError k) =>
        messages (self s') = msgs ∧ k ∈ required_holes ∧ h !! k = None
    | _ => False
    end.
Proof.
  rewrite init_run, get_examples_reads_in_order_aux, format_input_template.
  cbn zeta.
  destruct (negb (Qle_bool 0 t)); [by intros [= <- <-] |].
  destruct (negb (Qle_bool t 1)); [by intros [= <- <-] |].
  destruct (bool_decide _); [| by intros [= <- <-]].
  destruct (first_unreadable _) as [p|] eqn:Hp.
  { apply first_unreadable_some in Hp. by intros [= <- <-]. }
  unfold required_holes.
  destruct (h !! "source_code") eqn:H1;
    [| intros [= <- <-]; repeat split; try done; by repeat constructor].
  destruct (h !! "source_tree") eqn:H2;
    [| intros [= <- <-]; repeat split; try done; by repeat constructor].
  destruct (h !! "target_tree") eqn:H3;
    [| intros [= <- <-]; repeat split; try done; by repeat constructor].
  destruct (h !! "diff") eqn:H4;
    [| intros [= <- <-]; repeat split; try done; by repeat constructor].
  destruct (h !! "hints") eqn:H5;
    [| intros [= <- <-]; repeat split; try done; by repeat constructor].
  intros [= <- <-]. repeat split; try done. by eexists.
Qed.

(** X5: a rejected field is reported before anything else is looked
    at: with a temperature outside [0, 1] or an unsupported model,
    construction raises a [ValueError] whatever [holes] lacks and
    whatever the example files are, and appends nothing. *)
Theorem construction_checks_fields_first (h : gmap string string)
    (msgs : list message) (t : Q) (m : string) (s : state) :
  (t < 0)%Q ∨ (1 < t)%Q ∨ m ∉ ["gpt-4"; "gpt-4-32k"; "gpt-3.5-turbo-16k"] →
  ∃ what,
    __init__ h msgs t m s =
      (Raise (ValueError what), State (Chat h msgs t m) (calls s) (trace s)).
Proof.
  intros Hbad. rewrite init_run. cbn zeta.
  destruct (Qle_bool 0 t) eqn:Hge; cbn [negb]; [| by eexists].
  destruct (Qle_bool t 1) eqn:Hle; cbn [negb]; [| by eexists].
  destruct (bool_decide _) eqn:Hm; [| by eexists].
  apply Qle_bool_iff in Hge, Hle. apply bool_decide_eq_true in Hm.
  destruct Hbad as [Hlt | [Hgt | Hmodel]].
  - by apply Qlt_not_le in Hlt.
  - by apply Qlt_not_le in Hgt.
  - done.
Qed.

(** X6: keys of [holes] that the template does not name are ignored:
    adding one changes neither the outcome of construction nor the
    messages it leaves. *)
Theorem construction_ignores_extra_holes (h : gmap string string)
    (msgs : list message) (t : Q) (m : string) (s : state)
    (key value : string) :
  key ∉ required_holes →
  fst (__init__ (<[key := value]> h) msgs t m s) = fst (__init__ h msgs t m s)
  ∧ messages (self (snd (__init__ (<[key := value]> h) msgs t m s)))
    = messages (self (snd (__init__ h msgs t m s))).
Proof.
  intros Hkey. rewrite !init_run, !format_input_template. cbn zeta.
  unfold required_holes in Hkey.
  rewrite !lookup_insert_ne
    by (intros ->; apply Hkey; by repeat constructor).
  destruct (negb (Qle_bool 0 t)); [done |].
  destruct (negb (Qle_bool t 1)); [done |].
  destruct (bool_decide _); [| done].
  destruct (_get_examples _); [| done | done].
  destruct (h !! "source_code"); [| done].
  destruct (h !! "source_tree"); [| done].
  destruct (h !! "target_tree"); [| done].
  destruct (h !! "diff"); [| done].
  by destruct (h !! "hints").
Qed.

(** ** The completion client, whatever the provider does *)

Lemma requests_app (evs1 evs2 : list event) :
  requests (evs1 ++ evs2) = requests evs1 ++ requests evs2.
Proof. apply omap_app. Qed.

Lemma sleeps_app (evs1 evs2 : list event) :
  sleeps (evs1 ++ evs2) = sleeps evs1 ++ sleeps evs2.
Proof. apply omap_app. Qed.

Lemma logged_errors_app (evs1 evs2 : list event) :
  logged_errors (evs1 ++ evs2) = logged_errors evs1 ++ logged_errors evs2.
Proof. apply omap_app. Qed.

(** X7: whatever the provider answers and however long the loop runs,
    [get_completion] leaves the object as it was and sends the same
    request each time, counted once per call; it sleeps 10 seconds once
    per logged error and only errors of the three caught classes are
    logged. It returns what the last call answered, or raises the
    uncaught error of the last call, or [IndexError] on an empty
    conversation, before any call; nothing else is raised. *)
Theorem get_completion_outcomes (fuel : nat) (n_samples : Z) :
  ∀ (s s' : state) (r : result (list string)),
    get_completion fuel n_samples s = (r, s') →
    self s' = self s
    ∧ ∃ evs,
        trace s' = trace s ++ evs
        ∧ calls s' = calls s + length (requests evs)
        ∧ Forall (λ q, q = request_of (self s) n_samples) (requests evs)
        ∧ Forall (λ e, caught e = true) (logged_errors evs)
        ∧ sleeps evs = replicate (length (logged_errors evs)) 10%Z
        ∧ match r with
          | Ok choices =>
              length (requests evs) = S (length (sleeps evs))
              ∧ provider (calls s' - 1) (request_of (self s) n_samples)
                = Response choices
          | Raise (ProviderError e) =>
              length (requests evs) = S (length (sleeps evs))
              ∧ provider (calls s' - 1) (request_of (self s) n_samples) = Fails e
              ∧ ¬ transient e
          | Raise IndexError => messages (self s) = [] ∧ requests evs = []
          | Raise _ => False
          | OutOfFuel =>
              length (sleeps evs) = fuel ∧ length (requests evs) = fuel
          end.
Proof.
  induction fuel as [|fuel IH]; intros s s' r.
  { cbn. intros [= <- <-]. split; [done |]. exists []. cbn.
    rewrite app_nil_r, Nat.add_0_r. repeat split; done. }
  cbn [get_completion]. unfold bind.
  destruct (last (messages (self s))) as [latest|] eqn:Hlast; cycle 1.
  { apply last_None in Hlast.
    rewrite (attempt_no_message n_samples s Hlast).
    intros [= <- <-]. split; [done |]. eexists. cbn.
    split; [done |]. rewrite Nat.add_0_r. repeat split; done. }
  destruct (provider (calls s) (request_of (self s) n_samples))
    as [choices | e] eqn:Hp.
  { rewrite (attempt_success n_samples s latest Hlast choices Hp).
    cbn. intros [= <- <-]. split; [done |]. eexists. cbn.
    split; [done |]. rewrite Nat.sub_0_r.
    unfold attempt_events, requests, sleeps, logged_errors. cbn.
    repeat split; try done; try lia. by repeat constructor. }
  destruct (caught (ProviderError e)) eqn:Hcaught; cycle 1.
  { rewrite (attempt_fatal n_samples s latest Hlast e Hp Hcaught).
    intros [= <- <-]. split; [done |]. eexists. cbn.
    split; [done |]. rewrite Nat.sub_0_r.
    unfold attempt_events, requests, sleeps, logged_errors. cbn.
    repeat split; try done; try lia; [by repeat constructor |].
    by apply caught_not_transient. }
  rewrite (attempt_transient n_samples s latest Hlast e Hp Hcaught).
  intros Hrun. apply IH in Hrun.
  cbn [self calls trace] in Hrun.
  destruct Hrun as (Hself & evs & Htrace & Hcalls & Hreq & Hlog & Hsleep & Hr).
  split; [done |].
  exists (attempt_events (self s) latest n_samples ++ failure_events e ++ evs).
  rewrite !requests_app, !logged_errors_app, !sleeps_app.
  cbn [attempt_events failure_events requests sleeps logged_errors
       omap list_omap app length replicate].
  split; [by rewrite Htrace, <- !app_assoc |].
  split; [rewrite Hcalls; lia |].
  split; [by constructor |].
  split; [by constructor |].
  split; [by rewrite Hsleep |].
  destruct r as [choices | [] |]; try done.
  - destruct Hr as [Hn Hlast']. split; [by rewrite Hn | done].
  - destruct Hr as [Hempty _]. rewrite Hempty in Hlast. done.
  - destruct Hr as (Hn & Hlast' & Hfatal). split; [by rewrite Hn | done].
  - destruct Hr as [Hs Hq]. by rewrite Hs, Hq.
Qed.

(** X8: while the provider keeps failing with transient errors the
    loop never ends on its own: whatever budget of turns it is given,
    it uses it up, one call and one sleep of 10 seconds per turn, and
    the conversation is as it was. *)
Theorem get_completion_never_gives_up (fuel : nat) (n_samples : Z)
    (latest : message) :
  ∀ s,
    last (messages (self s)) = Some latest →
    (∀ k, calls s ≤ k →
       ∃ e, provider k (request_of (self s) n_samples) = Fails e ∧ transient e) →
    ∃ s' evs,
      get_completion fuel n_samples s = (OutOfFuel, s')
      ∧ self s' = self s
      ∧ calls s' = calls s + fuel
      ∧ trace s' = trace s ++ evs
      ∧ sleeps evs = replicate fuel 10%Z.
Proof.
  induction fuel as [|fuel IH]; intros s Hlast Hout.
  { exists s, []. rewrite app_nil_r, Nat.add_0_r. by destruct s. }
  destruct (Hout (calls s) (le_n _)) as (e & Hp & Ht).
  apply caught_transient in Ht.
  cbn [get_completion]. unfold bind.
  rewrite (attempt_transient n_samples s latest Hlast e Hp Ht).
  destruct (IH (State (self s) (S (calls s))
                  (trace s ++ attempt_events (self s) latest n_samples
                           ++ failure_events e)))
    as (s' & evs & Hrun & Hself & Hcalls & Htrace & Hsleeps).
  { done. }
  { cbn [self calls]. intros k Hk. apply Hout. lia. }
  cbn [self calls trace] in *.
  exists s', (attempt_events (self s) latest n_samples ++ failure_events e ++ evs).
  split; [done |]. split; [done |]. split; [lia |].
  split; [by rewrite Htrace, <- !app_assoc |].
  rewrite !sleeps_app, Hsleeps. done.
Qed.

(** X9: when the provider fails N times with transient errors and then
    answers, [get_model_response] returns the first sample and appends
    it once, as an assistant message; it has slept N times, 10 seconds
    each, and sent the same request, for one sample, N+1 times. *)
Theorem get_model_response_after_retries (fuel : nat) (s : state)
    (latest : message) (errs : list openai.error) (sample : string)
    (others : list string) :
  last (messages (self s)) = Some latest →
  role latest ≠ "assistant" →
  fails_transiently s 1 errs →
  provider (calls s + length errs) (request_of (self s) 1) = Response (sample :: others) →
  length errs < fuel →
  ∃ s' evs,
    get_model_response fuel s = (Ok sample, s')
    ∧ messages (self s') = messages (self s) ++ [Message "assistant" sample]
    ∧ calls s' = calls s + length errs + 1
    ∧ trace s' = trace s ++ evs
    ∧ sleeps evs = replicate (length errs) 10%Z
    ∧ requests evs = replicate (length errs + 1) (request_of (self s) 1).
Proof.
  intros Hlast Hrole Hfail Hok Hfuel.
  eexists _, _. split; [by apply (get_model_response_fetches fuel s latest errs sample others) |].
  cbn [self calls trace with_message messages].
  split; [done |]. split; [done |]. split; [done |].
  rewrite sleeps_app, requests_app, sleeps_retry_events, requests_retry_events.
  split; [by rewrite app_nil_r |].
  by rewrite replicate_add.
Qed.

(** X10: when the provider fails N times with transient errors and
    then with an error of another class, [get_model_response] raises
    that error after N sleeps and N+1 calls, and appends nothing. *)
Theorem get_model_response_fatal_after_retries (fuel : nat) (s : state)
    (latest : message) (errs : list openai.error) (e : openai.error) :
  last (messages (self s)) = Some latest →
  role latest ≠ "assistant" →
  fails_transiently s 1 errs →
  provider (calls s + length errs) (request_of (self s) 1) = Fails e →
  ¬ transient e →
  length errs < fuel →
  ∃ s' evs,
    get_model_response fuel s = (Raise (ProviderError e), s')
    ∧ self s' = self s
    ∧ calls s' = calls s + length errs + 1
    ∧ trace s' = trace s ++ evs
    ∧ sleeps evs = replicate (length errs) 10%Z
    ∧ logged_errors evs = ProviderError <$> errs.
Proof.
  intros Hlast Hrole Hfail Hp Hfatal Hfuel.
  eexists _, _. split; [by apply (get_model_response_fatal fuel s latest errs e) |].
  cbn [self calls trace].
  split; [done |]. split; [done |]. split; [done |].
  rewrite sleeps_app, logged_errors_app, sleeps_retry_events,
    logged_errors_retry_events.
  split; by rewrite app_nil_r.
Qed.

(** X11: on an empty conversation both methods raise [IndexError]:
    [get_model_response] at once, [get_completion] inside its [try],
    where it is not caught. No request is sent and nothing sleeps. *)
Theorem empty_conversation_raises_index_error (fuel : nat) (n_samples : Z)
    (s : state) :
  messages (self s) = [] →
  get_model_response fuel s = (Raise IndexError, s)
  ∧ get_completion (S fuel) n_samples s =
      (Raise IndexError,
       State (self s) (calls s)
             (trace s ++ [LogDebug "Attempting to get completion from GPT."])).
Proof.
  intros Hempty. split.
  - unfold get_model_response, bind, last_message. by rewrite Hempty.
  - cbn [get_completion]. unfold bind.
    by rewrite attempt_no_message.
Qed.

(** X12: when the provider answers with no sample at all,
    [get_model_response] raises [IndexError] on the first element of
    the empty list, after its one call; nothing is appended. *)
Theorem get_model_response_without_sample (fuel : nat) (s : state)
    (latest : message) :
  last (messages (self s)) = Some latest →
  role latest ≠ "assistant" →
  provider (calls s) (request_of (self s) 1) = Response [] →
  0 < fuel →
  get_model_response fuel s =
    (Raise IndexError,
     State (self s) (calls s + 1) (trace s ++ attempt_events (self s) latest 1)).
Proof.
  intros Hlast Hrole Hp Hfuel.
  unfold get_model_response, bind at 1, last_message. rewrite Hlast.
  apply String.eqb_neq in Hrole. rewrite Hrole.
  unfold bind at 1.
  rewrite (get_completion_run fuel 1 s latest [] []); try done.
  - cbn. by rewrite Nat.add_0_r.
  - cbn. by rewrite Nat.add_0_r.
Qed.

(** ** Operations, one after the other *)

(** X13: a follow-up and then a request for a reply, on any
    conversation, even an empty one or one that ends with a reply: when
    the provider answers the first call, exactly one request is sent,
    for one sample, and it carries the whole conversation with the
    follow-up last; the reply is appended after the follow-up. *)
Theorem followup_then_response (fuel : nat) (s : state)
    (followup_message sample : string) (others : list string) :
  provider (calls s)
    (Request (model (self s))
             (messages (self s) ++ [Message "user" followup_message])
             (temperature (self s)) 1)
    = Response (sample :: others) →
  0 < fuel →
  ∃ s' evs,
    (append_user_followup followup_message >>> get_model_response fuel) s
      = (Ok sample, s')
    ∧ messages (self s') =
        messages (self s) ++ [Message "user" followup_message;
                              Message "assistant" sample]
    ∧ calls s' = calls s + 1
    ∧ trace s' = trace s ++ evs
    ∧ requests evs =
        [Request (model (self s))
                 (messages (self s) ++ [Message "user" followup_message])
                 (temperature (self s)) 1].
Proof.
  intros Hp Hfuel.
  unfold bind at 1, append_user_followup, append_message.
  eexists _, _. split.
  - apply (get_model_response_fetches fuel _ (Message "user" followup_message)
             [] sample others); cbn [self calls trace with_message messages role].
    + apply last_snoc.
    + done.
    + intros i e Hi. done.
    + cbn. by rewrite Nat.add_0_r.
    + done.
  - cbn [self calls trace with_message messages].
    rewrite <- app_assoc. repeat split; try done. cbn. lia.
Qed.

(** X14: a reply recorded by hand is the next reply: after
    [append_system_message], [get_model_response] returns the recorded
    text without calling the provider, on any conversation and
    whatever the provider would have done. *)
Theorem recorded_reply_is_returned (fuel : nat) (s : state)
    (system_message : string) :
  (append_system_message system_message >>> get_model_response fuel) s =
    (Ok system_message,
     State (with_message (self s) (Message "assistant" system_message))
           (calls s)
           (trace s ++ [Print ("System: " +:+ system_message +:+ nl)])).
Proof.
  unfold bind at 1, append_system_message, append_message.
  rewrite (get_model_response_cache_hit fuel _
             (Message "assistant" system_message)); [done | | done].
  cbn [self with_message messages]. apply last_snoc.
Qed.

(** ** What a session sends *)

Lemma attempt_sends (n_samples : Z) (s : state) :
  ∃ evs, trace (snd (attempt n_samples s)) = trace s ++ evs
         ∧ Forall (λ q, q = request_of (self s) n_samples) (requests evs).
Proof.
  unfold attempt, try_except, bind, emit, last_message, ChatCompletion_create, ret.
  cbn. destruct (last (messages (self s))) as [latest|]; cbn.
  - destruct (provider _ _) as [choices | e]; cbn.
    + eexists. rewrite <- !app_assoc. split; [done |].
      cbn. by repeat constructor.
    + destruct (caught (ProviderError e)); cbn;
        (eexists; rewrite <- !app_assoc; split; [done |]);
        cbn; by repeat constructor.
  - eexists. split; [done |]. cbn. constructor.
Qed.

Lemma get_completion_sends (fuel : nat) (n_samples : Z) :
  ∀ s, ∃ evs,
    trace (snd (get_completion fuel n_samples s)) = trace s ++ evs
    ∧ Forall (λ q, q = request_of (self s) n_samples) (requests evs).
Proof.
  induction fuel as [|fuel IH]; intros s.
  { exists []. by rewrite app_nil_r. }
  cbn [get_completion]. unfold bind.
  destruct (attempt_sends n_samples s) as (evs1 & Ht1 & Hq1).
  pose proof (attempt_self n_samples s) as Hself.
  destruct (attempt n_samples s) as [[[completions|] | e |] s1];
    cbn [snd] in *; try by exists evs1.
  destruct (IH s1) as (evs2 & Ht2 & Hq2).
  exists (evs1 ++ evs2). split; [by rewrite Ht2, Ht1, app_assoc |].
  rewrite requests_app. apply Forall_app. split; [done |].
  by rewrite <- Hself.
Qed.

(** [get_model_response] sends only the request for one sample on the
    conversation as it finds it, and at most records the reply. *)
Lemma get_model_response_sends (fuel : nat) (s s' : state) (r : result string) :
  get_model_response fuel s = (r, s') →
  (self s' = self s
   ∨ ∃ reply, self s' = with_message (self s) (Message "assistant" reply))
  ∧ ∃ evs, trace s' = trace s ++ evs
           ∧ Forall (λ q, q = request_of (self s) 1) (requests evs).
Proof.
  unfold get_model_response, bind at 1, last_message.
  destruct (last (messages (self s))) as [latest|].
  2: { intros [= <- <-]. split; [by left |]. exists []. by rewrite app_nil_r. }
  destruct (String.eqb (role latest) "assistant").
  { intros [= <- <-]. split; [by left |]. eexists. split; [done |]. constructor. }
  unfold bind at 1.
  pose proof (get_completion_self fuel 1 s) as Hself.
  destruct (get_completion_sends fuel 1 s) as (evs & Ht & Hq).
  destruct (get_completion fuel 1 s) as [[completions | e |] s1];
    cbn [snd] in *.
  - destruct completions as [|sample others]; cbn; intros [= <- <-].
    + split; [by left |]. by exists evs.
    + split; [right; exists sample; by rewrite <- Hself |]. by exists evs.
  - intros [= <- <-]. split; [by left |]. by exists evs.
  - intros [= <- <-]. split; [by left |]. by exists evs.
Qed.

Lemma after_sends (op : operation) (s : state) :
  holes (self (after op s)) = holes (self s)
  ∧ temperature (self (after op s)) = temperature (self s)
  ∧ model (self (after op s)) = model (self s)
  ∧ ∃ evs, trace (after op s) = trace s ++ evs
           ∧ Forall (λ q, q = request_of (self s) 1) (requests evs).
Proof.
  destruct op as [text | text | fuel]; cbn.
  - repeat split; try done. exists []. by rewrite app_nil_r.
  - repeat split; try done. exists []. by rewrite app_nil_r.
  - destruct (get_model_response fuel s) as [r s'] eqn:Hrun.
    cbn [snd].
    destruct (get_model_response_sends fuel s s' r Hrun)
      as [[Hs | [reply Hs]] Hevs]; rewrite Hs; cbn; by repeat split.
Qed.

Lemma after_all_sends (ops : list operation) :
  ∀ s,
    holes (self (after_all ops s)) = holes (self s)
    ∧ temperature (self (after_all ops s)) = temperature (self s)
    ∧ model (self (after_all ops s)) = model (self s)
    ∧ ∃ evs, trace (after_all ops s) = trace s ++ evs
        ∧ Forall (λ q, req_model q = model (self s)
                       ∧ req_temperature q = temperature (self s)
                       ∧ req_n q = 1%Z
                       ∧ messages (self s) `prefix_of` req_messages q
                       ∧ req_messages q
                           `prefix_of` messages (self (after_all ops s)))
                 (requests evs).
Proof.
  induction ops as [|op ops IH]; intros s.
  { repeat split; try done. exists []. by rewrite app_nil_r. }
  change (after_all (op :: ops) s) with (after_all ops (after op s)).
  destruct (IH (after op s)) as (Hh & Ht & Hm & evs2 & Htrace2 & Hq2).
  destruct (after_sends op s) as (Hh1 & Ht1 & Hm1 & evs1 & Htrace1 & Hq1).
  destruct (after_appends op s) as (new & Hnew & _).
  pose proof (after_all_prefix ops (after op s)) as Hgrow.
  split; [congruence |]. split; [congruence |]. split; [congruence |].
  exists (evs1 ++ evs2). split; [by rewrite Htrace2, Htrace1, app_assoc |].
  rewrite requests_app. apply Forall_app. split.
  - eapply Forall_impl; [exact Hq1 |]. intros q ->. cbn.
    repeat split; try done.
    etrans; [| exact Hgrow]. rewrite Hnew. by apply prefix_app_r.
  - eapply Forall_impl; [exact Hq2 |]. cbn.
    intros q (Hqm & Hqt & Hqn & Hqp & Hqf). rewrite Hqm, Hqt, Hm1, Ht1.
    repeat split; try done.
    etrans; [| exact Hqp]. rewrite Hnew. by apply prefix_app_r.
Qed.

(** X15: every request a constructed object ever sends, over any
    sequence of operations, names the model and the temperature it was
    constructed with, both of them valid, and asks for one sample. The
    conversation it carries starts with the messages given at
    construction followed by the prompt that construction built (the
    explanation, the example corpus, the template filled from [holes])
    and is a prefix of the conversation the session ends with. *)
Theorem session_requests (h : gmap string string) (msgs : list message)
    (t : Q) (m : string) (s0 s1 : state) (ops : list operation) :
  __init__ h msgs t m s0 = (Ok tt, s1) →
  (0 <= t)%Q ∧ (t <= 1)%Q
  ∧ m ∈ ["gpt-4"; "gpt-4-32k"; "gpt-3.5-turbo-16k"]
  ∧ ∃ source_code source_tree target_tree diff hints,
      h !! "source_code" = Some source_code
      ∧ h !! "source_tree" = Some source_tree
      ∧ h !! "target_tree" = Some target_tree
      ∧ h !! "diff" = Some diff
      ∧ h !! "hints" = Some hints
      ∧ let prompt :=
          explanation +:+ nl +:+
          examples_text "../../src/cleanup_rules/java"
            (tree_at "../../src/cleanup_rules/java") text_or_empty +:+ nl +:+
          filled_template source_code source_tree target_tree diff hints in
        messages (self s1) = msgs ++ [Message "user" prompt]
        ∧ ∃ evs,
            trace (after_all ops s1) = trace s0 ++ evs
            ∧ Forall (λ q, req_model q = m
                           ∧ req_temperature q = t
                           ∧ req_n q = 1%Z
                           ∧ (msgs ++ [Message "user" prompt])
                               `prefix_of` req_messages q
                           ∧ req_messages q
                               `prefix_of` messages (self (after_all ops s1)))
                     (requests evs).
Proof.
  rewrite init_run, get_examples_reads_in_order_aux, format_input_template.
  cbn zeta.
  destruct (Qle_bool 0 t) eqn:Hge; cbn [negb]; [| done].
  destruct (Qle_bool t 1) eqn:Hle; cbn [negb]; [| done].
  destruct (bool_decide _) eqn:Hm; [| done].
  destruct (first_unreadable _); [done |].
  destruct (h !! "source_code") as [source_code|]; [| done].
  destruct (h !! "source_tree") as [source_tree|]; [| done].
  destruct (h !! "target_tree") as [target_tree|]; [| done].
  destruct (h !! "diff") as [diff|]; [| done].
  destruct (h !! "hints") as [hints|]; [| done].
  intros [= <-].
  apply Qle_bool_iff in Hge, Hle. apply bool_decide_eq_true in Hm.
  split; [done |]. split; [done |]. split; [done |].
  exists source_code, source_tree, target_tree, diff, hints.
  do 5 (split; [done |]). cbn zeta.
  split; [done |].
  match goal with
  | |- context [after_all ops ?s1] =>
      destruct (after_all_sends ops s1) as (_ & _ & _ & evs & Htrace & Hq)
  end.
  exists evs. split; [exact Htrace |]. exact Hq.
Qed.

(** X16: the class writes no other role than user and assistant: when
    the messages given at construction have these roles (the default
    list is empty), so have all the messages of the conversation, after
    any sequence of operations. *)
Theorem roles_are_user_or_assistant (h : gmap string string)
    (msgs : list message) (t : Q) (m : string) (s0 s1 : state)
    (ops : list operation) :
  __init__ h msgs t m s0 = (Ok tt, s1) →
  Forall (λ x, role x = "user" ∨ role x = "assistant") msgs →
  Forall (λ x, role x = "user" ∨ role x = "assistant")
         (messages (self (after_all ops s1))).
Proof.
  intros Hinit Hmsgs.
  destruct (init_messages h msgs t m s0) as [Hfirst _].
  rewrite Hinit in Hfirst. destruct Hfirst as [first Hfirst].
  assert (Forall (λ x, role x = "user" ∨ role x = "assistant")
                 (messages (self s1))) as Hstart.
  { rewrite Hfirst. apply Forall_app. split; [done |].
    constructor; [by left | constructor]. }
  clear Hinit Hfirst. revert s1 Hstart. unfold after_all.
  induction ops as [|op ops IH]; intros s1 Hstart; cbn [foldl]; [done |].
  apply IH.
  destruct (after_appends op s1) as (new & -> & _ & _ & Hnew).
  apply Forall_app. by split.
Qed.

(** ** The lines of an example *)

(** The pieces [split_nl] gives hold no newline: each splits to itself. *)
Lemma split_nl_single (s l : string) : l ∈ split_nl s → split_nl l = [l].
Proof.
  revert l. induction s as [|c s IH]; intros l; cbn [split_nl].
  - by intros ->%list_elem_of_singleton.
  - pose proof (split_nl_nonempty s) as Hne.
    destruct (Ascii.eqb c "010") eqn:Hc.
    + intros [-> | Hl]%elem_of_cons; [done | by apply IH].
    + destruct (split_nl s) as [|h t]; [done |].
      intros [-> | Hl]%elem_of_cons.
      * cbn [split_nl]. rewrite Hc, (IH h) by apply list_elem_of_here. done.
      * apply IH. by apply list_elem_of_further.
Qed.

Lemma split_nl_after_line (a b : string) :
  split_nl a = [a] →
  split_nl (a +:+ nl +:+ b) = a :: split_nl b.
Proof.
  induction a as [|c a IH]; [done |].
  cbn [split_nl]. rewrite append_cons. cbn [split_nl].
  destruct (Ascii.eqb c "010") eqn:Hc; [done |].
  pose proof (split_nl_nonempty a) as Hne.
  destruct (split_nl a) as [|h t] eqn:Ha; [done |].
  intros [= -> ->]. by rewrite IH.
Qed.

Lemma split_join_nl (lines : list string) :
  lines ≠ [] →
  (∀ l, l ∈ lines → split_nl l = [l]) →
  split_nl (join_nl lines) = lines.
Proof.
  unfold join_nl. induction lines as [|l lines IH]; [done |].
  intros _ Hsingle. destruct lines as [|l' lines].
  - cbn. apply Hsingle, list_elem_of_here.
  - change (String.concat nl (l :: l' :: lines))
      with (l +:+ nl +:+ String.concat nl (l' :: lines)).
    rewrite split_nl_after_line by apply Hsingle, list_elem_of_here.
    rewrite IH; [done | done |].
    intros x Hx. apply Hsingle. by apply list_elem_of_further.
Qed.

Lemma kept_lines_single (text l : string) :
  l ∈ kept_lines text → split_nl l = [l] ∧ startswith l "#" = false.
Proof.
  unfold kept_lines. intros Hl%list_elem_of_In%List.filter_In.
  destruct Hl as [Hl Hkeep]. apply list_elem_of_In in Hl.
  split; [by apply (split_nl_single text) | by apply negb_true_iff].
Qed.

(** X17: the content put in a block has exactly the lines of the file
    that do not start with [#], in their order: blank lines and
    comments that are indented stay. When every line is a comment the
    content is empty. *)
Theorem remove_comment_lines_keeps_other_lines (text : string) :
  remove_comment_lines text = join_nl (kept_lines text)
  ∧ split_nl (remove_comment_lines text) =
      match kept_lines text with
      | [] => [""]
      | lines => lines
      end
  ∧ ∀ l, l ∈ kept_lines text ↔ l ∈ split_nl text ∧ startswith l "#" = false.
Proof.
  split; [done |]. split.
  - unfold remove_comment_lines. fold (kept_lines text).
    destruct (kept_lines text) as [|l lines] eqn:Hkept; [done |].
    apply split_join_nl; [done |].
    intros x Hx. rewrite <- Hkept in Hx.
    by apply kept_lines_single in Hx as [Hx _].
  - intros l. unfold kept_lines.
    rewrite !list_elem_of_In, List.filter_In.
    by rewrite negb_true_iff.
Qed.

(** X18: a text in which no line starts with [#] goes into its block
    unchanged. *)
Theorem remove_comment_lines_without_comment (text : string) :
  (∀ l, l ∈ split_nl text → startswith l "#" = false) →
  remove_comment_lines text = text.
Proof.
  intros Hnone. unfold remove_comment_lines.
  rewrite List.forallb_filter_id; [apply join_split_nl |].
  apply List.forallb_forall. intros l Hl%list_elem_of_In.
  by rewrite (Hnone l Hl).
Qed.

(** X19: removing the comment lines twice is removing them once. *)
Theorem remove_comment_lines_idempotent (text : string) :
  remove_comment_lines (remove_comment_lines text) = remove_comment_lines text.
Proof.
  assert (remove_comment_lines text = join_nl (kept_lines text)) as Hlines
    by reflexivity.
  unfold remove_comment_lines at 1. rewrite Hlines.
  destruct (kept_lines text) as [|l lines] eqn:Hkept; [reflexivity |].
  assert (∀ x, x ∈ l :: lines → split_nl x = [x] ∧ startswith x "#" = false)
    as Hkeep.
  { intros x Hx. rewrite <- Hkept in Hx. by apply kept_lines_single in Hx. }
  rewrite split_join_nl; [| done | intros x Hx; by apply Hkeep].
  f_equal. apply List.forallb_filter_id, List.forallb_forall.
  intros x Hx%list_elem_of_In. apply negb_true_iff. by apply Hkeep.
Qed.

End PiranhaGPTChat.

(** ** The worked session, run *)

Lemma demo_fails_transiently (n_samples : Z) :
  fails_transiently flaky_provider demo_asking n_samples demo_errors.
Proof.
  intros [|[|i]] e Hi; cbn in Hi; try done;
    injection Hi as <-; (split; [reflexivity |]); unfold transient; cbn; auto.
Defined.

Lemma get_completion_retries_then_returns_witness :
  let evs := retry_events demo_asking.(self) (Message "user" "hi") 2 demo_errors
             ++ attempt_events demo_asking.(self) (Message "user" "hi") 2 in
  get_completion flaky_provider 3 2 demo_asking =
    (Ok ["first"; "second"], State demo_asking.(self) 3 evs)
  ∧ logged_errors evs = ProviderError <$> demo_errors
  ∧ sleeps evs = [10%Z; 10%Z].
Proof.
  apply (get_completion_retries_then_returns flaky_provider 3 2 demo_asking
           (Message "user" "hi") demo_errors ["first"; "second"]).
  - reflexivity.
  - apply demo_fails_transiently.
  - reflexivity.
  - cbn. lia.
Defined.

Lemma get_model_response_returns_pending_answer_witness :
  ∃ s', get_model_response flaky_provider 0 demo_answered = (Ok "hello", s')
    ∧ messages (self s') = messages (self demo_answered)
    ∧ self s' = self demo_answered
    ∧ calls s' = 0
    ∧ requests (drop 0 (trace s')) = []
    ∧ trace s' = [Print ("System: hello" +:+ nl)].
Proof.
  apply (get_model_response_returns_pending_answer flaky_provider 0
           demo_answered (Message "assistant" "hello")); reflexivity.
Defined.

Lemma get_model_response_first_attempt_witness :
  ∃ s', get_model_response flaky_provider 1 demo_asking_later = (Ok "first", s')
    ∧ messages (self s') = [Message "user" "hi"; Message "assistant" "first"]
    ∧ calls s' = 3
    ∧ requests (drop 0 (trace s')) = [request_of (self demo_asking_later) 1].
Proof.
  apply (get_model_response_first_attempt flaky_provider 1 demo_asking_later
           (Message "user" "hi") "first" ["second"]).
  - reflexivity.
  - discriminate.
  - reflexivity.
  - lia.
Defined.

Lemma get_model_response_propagates_fatal_error_witness :
  ∃ s', get_model_response rejecting_provider 1 demo_asking =
          (Raise (ProviderError (openai.Error openai.AuthenticationError "bad key")), s')
    ∧ messages (self s') = [Message "user" "hi"]
    ∧ sleeps (drop 0 (trace s')) = [].
Proof.
  apply (get_model_response_propagates_fatal_error rejecting_provider 1
           demo_asking (Message "user" "hi")
           (openai.Error openai.AuthenticationError "bad key")).
  - reflexivity.
  - discriminate.
  - reflexivity.
  - unfold transient. cbn. intros [H | [H | H]]; discriminate H.
  - lia.
Defined.

(** C5, as stated, fails: asked for two samples, [get_completion]
    returns both and the conversation still holds its one message. *)
Lemma get_completion_two_samples_appends_nothing :
  (∃ s', get_completion flaky_provider 1 2 demo_asking_later
           = (Ok ["first"; "second"], s')
         ∧ messages (self s') = [Message "user" "hi"])
  ∧ ¬ returns_samples_and_appends_first flaky_provider.
Proof.
  pose (s1 := snd (get_completion flaky_provider 1 2 demo_asking_later)).
  assert (get_completion flaky_provider 1 2 demo_asking_later
          = (Ok ["first"; "second"], s1)) as Hrun by (vm_compute; reflexivity).
  assert (messages (self s1) = [Message "user" "hi"]) as Hsame
    by (vm_compute; reflexivity).
  clearbody s1. split.
  - exists s1. split; [exact Hrun | exact Hsame].
  - intros Hclaim.
    destruct (Hclaim 1 2%Z demo_asking_later (Message "user" "hi")
                ["first"; "second"] eq_refl (le_n 1) eq_refl eq_refl)
      as (s' & sample & Hrun' & _ & Happended).
    rewrite Hrun in Hrun'. injection Hrun' as <-.
    rewrite Hsame in Happended. discriminate Happended.
Qed.

Lemma get_completion_returns_all_samples_witness :
  (∃ s', get_completion flaky_provider 3 2 demo_asking = (Ok ["first"; "second"], s')
         ∧ messages (self s') = [Message "user" "hi"])
  ∧ (∀ fuel' n' s0,
       messages (self (snd (get_completion flaky_provider fuel' n' s0)))
       = messages (self s0))
  ∧ (∀ fuel' s0, asks_for 1 s0 (snd (get_model_response flaky_provider fuel' s0)))
  ∧ ∀ fuel' s0 s1 text,
      get_model_response flaky_provider fuel' s0 = (Ok text, s1) →
      (∃ m, last (messages (self s0)) = Some m
            ∧ role m = "assistant" ∧ content m = text
            ∧ messages (self s1) = messages (self s0)
            ∧ calls s1 = calls s0)
      ∨ (∃ others,
           calls s0 < calls s1
           ∧ flaky_provider (calls s1 - 1) (request_of (self s0) 1)
             = Response (text :: others)
           ∧ messages (self s1) = messages (self s0) ++ [Message "assistant" text]).
Proof.
  apply (get_completion_returns_all_samples flaky_provider 3 2 demo_asking
           (Message "user" "hi") demo_errors ["first"; "second"]).
  - reflexivity.
  - reflexivity.
  - apply demo_fails_transiently.
  - reflexivity.
  - cbn. lia.
Defined.

(** [str.format] on small templates: a value is inserted as it is, a
    doubled brace is one brace, the first missing name is the error. *)
Example format_inserts_verbatim :
  format "a{x}b{{c}}{y}" {[ "x" := "{y}"; "y" := "Y" ]} = Ok "a{y}b{c}Y".
Proof. reflexivity. Qed.

Example format_first_missing_name :
  format "{x}{y}{z}" {[ "x" := "X" ]} = Raise (KeyError "y").
Proof. reflexivity. Qed.

Example format_input_template_without_diff :
  format input_template demo_holes_without_diff = Raise (KeyError "diff").
Proof. reflexivity. Qed.

(** The validators of [temperature] take 0 and 1 and reject what lies
    outside. *)
Example temperature_bounds :
  fst (validate_temperature (State (Chat ∅ [] 0 "gpt-4") 0 [])) = Ok tt
  ∧ fst (validate_temperature (State (Chat ∅ [] 1 "gpt-4") 0 [])) = Ok tt
  ∧ fst (validate_temperature (State (Chat ∅ [] (-1 # 10) "gpt-4") 0 []))
    = Raise (ValueError "'temperature' must be >= 0")
  ∧ fst (validate_temperature (State (Chat ∅ [] (11 # 10) "gpt-4") 0 []))
    = Raise (ValueError "'temperature' must be <= 1").
Proof. repeat split; reflexivity. Qed.

(** The walk lists a directory before its sub-directories. *)
Example walk_demo :
  walk "root" (demo_tree "root") =
    [("root", ["a"; "b"], []);
     ("root/a", [], ["rules.toml"]);
     ("root/b", [], ["notes.txt"])].
Proof. reflexivity. Qed.

(** The example of the specification: only [a/rules.toml] is taken, its
    comment line is gone, and the block carries its path. *)
Example get_examples_demo :
  _get_examples demo_tree demo_read_text demo_examples_root =
    Ok ("<file_name_start> ../../src/cleanup_rules/java/a/rules.toml <file_name_end>"
        +:+ nl +:+ "```toml [[rules]]```" +:+ nl).
Proof. reflexivity. Qed.

Lemma get_examples_concatenates_rule_files_witness :
  _get_examples demo_tree demo_read_text demo_examples_root =
    Ok (examples_text demo_examples_root (demo_tree demo_examples_root) demo_text).
Proof.
  apply (get_examples_concatenates_rule_files demo_tree demo_read_text
           demo_examples_root demo_text).
  intros p Hp. vm_compute in Hp.
  apply list_elem_of_singleton in Hp. subst p. reflexivity.
Defined.

Lemma conversation_is_append_only_witness :
  let demo_constructed :=
    snd (__init__ "EXPLANATION" demo_tree demo_read_text
           demo_holes [] (3 # 10) "gpt-4" demo_world) in
  (∃ first, messages (self demo_constructed) = [] ++ [Message "user" first])
  ∧ messages (self (after_all flaky_provider demo_operations demo_constructed)) ≠ []
  ∧ messages (self demo_constructed)
      `prefix_of` messages (self (after_all flaky_provider demo_operations demo_constructed))
  ∧ ∀ op s, ∃ new,
      messages (self (after flaky_provider op s)) = messages (self s) ++ new
      ∧ length new ≤ 1
      ∧ (∀ m, appended_by op = Some m → new = [m])
      ∧ Forall (λ m, role m = "user" ∨ role m = "assistant") new.
Proof.
  intros demo_constructed.
  apply (conversation_is_append_only "EXPLANATION" demo_tree demo_read_text
           flaky_provider demo_holes [] (3 # 10) "gpt-4" demo_world
           demo_constructed demo_operations).
  vm_compute. reflexivity.
Defined.

Lemma construction_rejects_missing_hole_witness :
  ∃ e k,
    __init__ "EXPLANATION" demo_tree demo_read_text
      demo_holes_without_diff [] (3 # 10) "gpt-4" demo_world =
      (Raise e, State (Chat demo_holes_without_diff [] (3 # 10) "gpt-4") 0 [])
    ∧ first_missing demo_holes_without_diff = Some k
    ∧ ((∃ examples, _get_examples demo_tree demo_read_text
                      "../../src/cleanup_rules/java" = Ok examples) →
       configuration_error e = true
       ∧ (Qle_bool 0 (3 # 10) = true → Qle_bool (3 # 10) 1 = true →
          "gpt-4" ∈ ["gpt-4"; "gpt-4-32k"; "gpt-3.5-turbo-16k"] →
          e = KeyError k)).
Proof.
  apply (construction_rejects_missing_hole "EXPLANATION" demo_tree demo_read_text
           demo_holes_without_diff [] (3 # 10) "gpt-4" demo_world "diff").
  - unfold required_holes. do 3 apply list_elem_of_further. apply list_elem_of_here.
  - vm_compute. reflexivity.
Defined.

Lemma construction_seeds_prompt_witness :
  __init__ "EXPLANATION" demo_tree demo_read_text
    demo_holes [] (3 # 10) "gpt-4" demo_world =
    (Ok tt,
     State (Chat demo_holes
              ([] ++ [Message "user"
                        ("EXPLANATION" +:+ nl +:+
                         examples_text demo_examples_root
                           (demo_tree demo_examples_root) demo_text +:+ nl +:+
                         filled_template "class A {}" "(program)"
                           "(program (class))" "+ class" "none")])
              (3 # 10) "gpt-4")
           0 []).
Proof.
  apply (construction_seeds_prompt "EXPLANATION" demo_tree demo_read_text
           demo_holes [] (3 # 10) "gpt-4" demo_world).
  - vm_compute. reflexivity.
  - vm_compute. reflexivity.
  - vm_compute. reflexivity.
  - vm_compute. reflexivity.
  - vm_compute. reflexivity.
  - reflexivity.
  - reflexivity.
  - apply list_elem_of_here.
  - vm_compute. reflexivity.
Defined.

Lemma get_model_response_twice_witness :
  let demo_replied := snd (get_model_response flaky_provider 3 demo_asking) in
  (∃ m, last (messages (self demo_replied)) = Some m
        ∧ role m = "assistant" ∧ content m = "first")
  ∧ ∃ s2, get_model_response flaky_provider 0 demo_replied = (Ok "first", s2)
      ∧ self s2 = self demo_replied
      ∧ calls s2 = calls demo_replied
      ∧ requests (drop (length (trace demo_replied)) (trace s2)) = [].
Proof.
  intros demo_replied.
  apply (get_model_response_twice flaky_provider 3 0 demo_asking demo_replied "first").
  vm_compute. reflexivity.
Defined.

(** ** The example corpus and the other files *)

Lemma read_agreement (r1 r2 : string → option string) (paths : list string) :
  (∀ p, p ∈ paths → r1 p = r2 p) →
  first_unreadable r1 paths = first_unreadable r2 paths
  ∧ blocks (text_or_empty r1) paths = blocks (text_or_empty r2) paths.
Proof.
  unfold first_unreadable, blocks, text_or_empty.
  induction paths as [|p paths IH]; intros Hagree; [done |].
  destruct IH as [IHf IHb].
  { intros q Hq. apply Hagree. by apply list_elem_of_further. }
  cbn [List.find]. rewrite !fmap_cons.
  rewrite (Hagree p) by apply list_elem_of_here.
  by rewrite IHf, IHb.
Qed.

(** X20: [_get_examples] looks at no other file than those whose name
    ends with [rules.toml]: two file systems with the same tree that
    agree on these files give the same result, text or error. *)
Theorem get_examples_reads_only_rule_files (tree_at : string → node)
    (r1 r2 : string → option string) (path : string) :
  (∀ p, p ∈ rule_files path (tree_at path) → r1 p = r2 p) →
  _get_examples tree_at r1 path = _get_examples tree_at r2 path.
Proof.
  intros Hagree. rewrite !get_examples_reads_in_order_aux.
  destruct (read_agreement r1 r2 _ Hagree) as [-> Hblocks].
  unfold examples_text. by rewrite Hblocks.
Qed.

(** ** More of the worked session, run *)

Lemma get_examples_raises_first_read_error_witness :
  _get_examples demo_locked_tree demo_locked_read_text demo_examples_root =
    Raise (ReadError "../../src/cleanup_rules/java/a/rules.toml").
Proof.
  apply (get_examples_raises_first_read_error demo_locked_tree
           demo_locked_read_text demo_examples_root
           "../../src/cleanup_rules/java/a/rules.toml"
           ["../../src/cleanup_rules/java/b_rules.toml"]
           ["../../src/cleanup_rules/java/a/z_rules.toml"]).
  - reflexivity.
  - intros q Hq. apply list_elem_of_singleton in Hq. subst q. by eexists.
  - reflexivity.
Defined.

Lemma get_examples_without_rule_files_witness :
  _get_examples demo_missing_tree demo_read_text demo_examples_root = Ok "".
Proof.
  apply (get_examples_without_rule_files demo_missing_tree demo_read_text
           demo_examples_root).
  reflexivity.
Defined.

Lemma construction_outcomes_witness :
  let s' := snd (__init__ "EXPLANATION" demo_tree demo_read_text
                   demo_holes_without_diff [] (3 # 10) "gpt-4" demo_world) in
  calls s' = calls demo_world ∧ trace s' = trace demo_world
  ∧ holes (self s') = demo_holes_without_diff
  ∧ temperature (self s') = (3 # 10) ∧ model (self s') = "gpt-4"
  ∧ (messages (self s') = [] ∧ "diff" ∈ required_holes
     ∧ demo_holes_without_diff !! "diff" = None).
Proof.
  intros s'.
  apply (construction_outcomes "EXPLANATION" demo_tree demo_read_text
           demo_holes_without_diff [] (3 # 10) "gpt-4" demo_world s'
           (Raise (KeyError "diff"))).
  vm_compute. reflexivity.
Defined.

Lemma construction_checks_fields_first_witness :
  ∃ what,
    __init__ "EXPLANATION" demo_locked_tree demo_locked_read_text
      demo_holes_without_diff [] (11 # 10) "gpt-5" demo_world =
      (Raise (ValueError what),
       State (Chat demo_holes_without_diff [] (11 # 10) "gpt-5") 0 []).
Proof.
  apply (construction_checks_fields_first "EXPLANATION" demo_locked_tree
           demo_locked_read_text demo_holes_without_diff [] (11 # 10) "gpt-5"
           demo_world).
  right. left. reflexivity.
Defined.

Lemma construction_ignores_extra_holes_witness :
  fst (__init__ "EXPLANATION" demo_tree demo_read_text
         (<["unused" := "value"]> demo_holes) [] (3 # 10) "gpt-4" demo_world)
  = fst (__init__ "EXPLANATION" demo_tree demo_read_text
           demo_holes [] (3 # 10) "gpt-4" demo_world)
  ∧ messages (self (snd (__init__ "EXPLANATION" demo_tree demo_read_text
         (<["unused" := "value"]> demo_holes) [] (3 # 10) "gpt-4" demo_world)))
    = messages (self (snd (__init__ "EXPLANATION" demo_tree demo_read_text
           demo_holes [] (3 # 10) "gpt-4" demo_world))).
Proof.
  apply (construction_ignores_extra_holes "EXPLANATION" demo_tree demo_read_text
           demo_holes [] (3 # 10) "gpt-4" demo_world "unused" "value").
  unfold required_holes. intros Hin.
  repeat (apply elem_of_cons in Hin as [Hin | Hin]; [discriminate Hin |]).
  by apply elem_of_nil in Hin.
Defined.

Lemma get_completion_outcomes_witness :
  let s' := snd (get_completion flaky_provider 5 2 demo_asking) in
  self s' = self demo_asking
  ∧ ∃ evs,
      trace s' = trace demo_asking ++ evs
      ∧ calls s' = calls demo_asking + length (requests evs)
      ∧ Forall (λ q, q = request_of (self demo_asking) 2) (requests evs)
      ∧ Forall (λ e, caught e = true) (logged_errors evs)
      ∧ sleeps evs = replicate (length (logged_errors evs)) 10%Z
      ∧ (length (requests evs) = S (length (sleeps evs))
         ∧ flaky_provider (calls s' - 1) (request_of (self demo_asking) 2)
           = Response ["first"; "second"]).
Proof.
  intros s'.
  apply (get_completion_outcomes flaky_provider 5 2 demo_asking s'
           (Ok ["first"; "second"])).
  vm_compute. reflexivity.
Defined.

Lemma get_completion_never_gives_up_witness :
  ∃ s' evs,
    get_completion outage_provider 4 1 demo_asking = (OutOfFuel, s')
    ∧ self s' = self demo_asking
    ∧ calls s' = calls demo_asking + 4
    ∧ trace s' = trace demo_asking ++ evs
    ∧ sleeps evs = replicate 4 10%Z.
Proof.
  apply (get_completion_never_gives_up outage_provider 4 1
           (Message "user" "hi") demo_asking).
  - reflexivity.
  - intros k _. eexists. split; [reflexivity |]. left. reflexivity.
Defined.

Lemma get_model_response_after_retries_witness :
  ∃ s' evs,
    get_model_response flaky_provider 3 demo_asking = (Ok "first", s')
    ∧ messages (self s') =
        messages (self demo_asking) ++ [Message "assistant" "first"]
    ∧ calls s' = calls demo_asking + length demo_errors + 1
    ∧ trace s' = trace demo_asking ++ evs
    ∧ sleeps evs = replicate (length demo_errors) 10%Z
    ∧ requests evs =
        replicate (length demo_errors + 1) (request_of (self demo_asking) 1).
Proof.
  apply (get_model_response_after_retries flaky_provider 3 demo_asking
           (Message "user" "hi") demo_errors "first" ["second"]).
  - reflexivity.
  - discriminate.
  - apply demo_fails_transiently.
  - reflexivity.
  - cbn. lia.
Defined.

Lemma get_model_response_fatal_after_retries_witness :
  ∃ s' evs,
    get_model_response expiring_provider 2 demo_asking =
      (Raise (ProviderError (openai.Error openai.AuthenticationError "expired")), s')
    ∧ self s' = self demo_asking
    ∧ calls s' = calls demo_asking + 1 + 1
    ∧ trace s' = trace demo_asking ++ evs
    ∧ sleeps evs = replicate 1 10%Z
    ∧ logged_errors evs =
        ProviderError <$> [openai.Error openai.RateLimitError "slow down"].
Proof.
  apply (get_model_response_fatal_after_retries expiring_provider 2 demo_asking
           (Message "user" "hi")
           [openai.Error openai.RateLimitError "slow down"]
           (openai.Error openai.AuthenticationError "expired")).
  - reflexivity.
  - discriminate.
  - intros [|i] e Hi; cbn in Hi; [| done].
    injection Hi as <-. split; [reflexivity |]. left. reflexivity.
  - reflexivity.
  - unfold transient. cbn. intros [H | [H | H]]; discriminate H.
  - cbn. lia.
Defined.

Lemma empty_conversation_raises_index_error_witness :
  get_model_response flaky_provider 3 demo_empty = (Raise IndexError, demo_empty)
  ∧ get_completion flaky_provider 4 1 demo_empty =
      (Raise IndexError,
       State (self demo_empty) 0
             ([] ++ [LogDebug "Attempting to get completion from GPT."])).
Proof.
  apply (empty_conversation_raises_index_error flaky_provider 3 1 demo_empty).
  reflexivity.
Defined.

Lemma get_model_response_without_sample_witness :
  get_model_response silent_provider 1 demo_asking =
    (Raise IndexError,
     State (self demo_asking) (0 + 1)
           ([] ++ attempt_events (self demo_asking) (Message "user" "hi") 1)).
Proof.
  apply (get_model_response_without_sample silent_provider 1 demo_asking
           (Message "user" "hi")).
  - reflexivity.
  - discriminate.
  - reflexivity.
  - lia.
Defined.

Lemma followup_then_response_witness :
  ∃ s' evs,
    (append_user_followup "again" >>> get_model_response flaky_provider 1)
      demo_asking_later = (Ok "first", s')
    ∧ messages (self s') =
        messages (self demo_asking_later)
        ++ [Message "user" "again"; Message "assistant" "first"]
    ∧ calls s' = calls demo_asking_later + 1
    ∧ trace s' = trace demo_asking_later ++ evs
    ∧ requests evs =
        [Request "gpt-4"
                 (messages (self demo_asking_later) ++ [Message "user" "again"])
                 (3 # 10) 1].
Proof.
  apply (followup_then_response flaky_provider 1 demo_asking_later
           "again" "first" ["second"]).
  - reflexivity.
  - lia.
Defined.

Lemma session_requests_witness :
  let s1 := snd (__init__ "EXPLANATION" demo_tree demo_read_text
                   demo_holes [] (3 # 10) "gpt-4" demo_world) in
  (0 <= 3 # 10)%Q ∧ (3 # 10 <= 1)%Q
  ∧ "gpt-4" ∈ ["gpt-4"; "gpt-4-32k"; "gpt-3.5-turbo-16k"]
  ∧ ∃ source_code source_tree target_tree diff hints,
      demo_holes !! "source_code" = Some source_code
      ∧ demo_holes !! "source_tree" = Some source_tree
      ∧ demo_holes !! "target_tree" = Some target_tree
      ∧ demo_holes !! "diff" = Some diff
      ∧ demo_holes !! "hints" = Some hints
      ∧ let prompt :=
          "EXPLANATION" +:+ nl +:+
          examples_text "../../src/cleanup_rules/java"
            (demo_tree "../../src/cleanup_rules/java")
            (text_or_empty demo_read_text) +:+ nl +:+
          filled_template source_code source_tree target_tree diff hints in
        messages (self s1) = [] ++ [Message "user" prompt]
        ∧ ∃ evs,
            trace (after_all flaky_provider demo_operations s1)
            = trace demo_world ++ evs
            ∧ Forall (λ q, req_model q = "gpt-4"
                           ∧ req_temperature q = (3 # 10)
                           ∧ req_n q = 1%Z
                           ∧ ([] ++ [Message "user" prompt])
                               `prefix_of` req_messages q
                           ∧ req_messages q
                               `prefix_of`
                               messages (self (after_all flaky_provider
                                                 demo_operations s1)))
                     (requests evs).
Proof.
  intros s1.
  apply (session_requests "EXPLANATION" demo_tree demo_read_text flaky_provider
           demo_holes [] (3 # 10) "gpt-4" demo_world s1 demo_operations).
  vm_compute. reflexivity.
Defined.

Lemma roles_are_user_or_assistant_witness :
  let s1 := snd (__init__ "EXPLANATION" demo_tree demo_read_text
                   demo_holes [] (3 # 10) "gpt-4" demo_world) in
  Forall (λ x, role x = "user" ∨ role x = "assistant")
         (messages (self (after_all flaky_provider demo_operations s1))).
Proof.
  intros s1.
  apply (roles_are_user_or_assistant "EXPLANATION" demo_tree demo_read_text
           flaky_provider demo_holes [] (3 # 10) "gpt-4" demo_world s1
           demo_operations).
  - vm_compute. reflexivity.
  - constructor.
Defined.

Lemma remove_comment_lines_without_comment_witness :
  remove_comment_lines ("[[rules]]" +:+ nl +:+ "  # kept" +:+ nl)
  = "[[rules]]" +:+ nl +:+ "  # kept" +:+ nl.
Proof.
  apply (remove_comment_lines_without_comment
           ("[[rules]]" +:+ nl +:+ "  # kept" +:+ nl)).
  intros l Hl. vm_compute in Hl.
  repeat (apply elem_of_cons in Hl as [-> | Hl]; [reflexivity |]).
  by apply elem_of_nil in Hl.
Defined.

Lemma get_examples_reads_only_rule_files_witness :
  _get_examples demo_tree demo_read_text demo_examples_root
  = _get_examples demo_tree demo_read_text_all demo_examples_root.
Proof.
  apply (get_examples_reads_only_rule_files demo_tree demo_read_text
           demo_read_text_all demo_examples_root).
  intros p Hp. vm_compute in Hp.
  apply list_elem_of_singleton in Hp. subst p. reflexivity.
Defined.
